(** * Bedrock Agent Proxy: a shallow embedding of [bedrock_agent_proxy.py]

    The proxy translates an OpenAI-style chat-completions request into one
    invocation of a Bedrock agent and relays the agent's chunked answer
    either as one JSON object or as a stream of server-sent events.

    Layout: the Python primitives the module relies on, then the module's
    own code in source order (registry construction, [validate_api_key],
    [chat_completions] with its nested [generate_stream], [list_models]),
    then the properties. *)

From Stdlib Require Import List String Ascii Bool NArith ZArith Lia.
From Stdlib.Strings Require Import Byte.
Import ListNotations.

Set Implicit Arguments.

(** ** Python values *)

(** A Python [str] is a sequence of Unicode code points. *)
Definition char := N.
Definition str := list char.

(** Source literals are written as Rocq strings and read one character per
    code point; [nl] is the ["\n"] of the source. *)
Definition lit (s : string) : str := List.map N_of_ascii (list_ascii_of_string s).
Definition nl : str := [10%N].

Definition char_eqb (a b : char) : bool := N.eqb a b.

Fixpoint str_eqb (a b : str) : bool :=
  match a, b with
  | [], [] => true
  | x :: a', y :: b' => char_eqb x y && str_eqb a' b'
  | _, _ => false
  end.

(** Truth value of a string: [if s] holds for the non-empty ones. *)
Definition str_truthy (s : str) : bool :=
  match s with [] => false | _ :: _ => true end.

(** What [x.get(k)] can return for the text fields read by the module:
    [None] or a string. *)
Inductive pyval : Type :=
| PNone
| PStr (s : str).

Definition truthy (v : pyval) : bool :=
  match v with PNone => false | PStr s => str_truthy s end.

(** [f"{v}"]: [None] is formatted as the four letters of its name. *)
Definition fmt (v : pyval) : str :=
  match v with PNone => lit "None" | PStr s => s end.

(** [str.lower()].  The module compares lowered text only with the ASCII
    literals ["none"] and ["bearer"]; no code point outside [A-Z] lowers to
    one of their letters, so lowering the ASCII capitals decides both
    comparisons as Python does. *)
Definition lower_char (c : char) : char :=
  if (65 <=? c)%N && (c <=? 90)%N then (c + 32)%N else c.
Definition lower (s : str) : str := List.map lower_char s.

(** [str.isspace()] per character: the separators of [str.split()]. *)
Definition is_space (c : char) : bool :=
  ((9 <=? c) && (c <=? 13) || (28 <=? c) && (c <=? 32)
   || (c =? 133) || (c =? 160) || (c =? 5760)
   || (8192 <=? c) && (c <=? 8202) || (c =? 8232) || (c =? 8233)
   || (c =? 8239) || (c =? 8287) || (c =? 12288))%N.

(** [s.split()]: maximal runs of non-space characters, in order.  [cur] is
    the run being read, most recent character first. *)
Fixpoint split_from (cur : str) (s : str) : list str :=
  match s with
  | [] => match cur with [] => [] | _ => [rev cur] end
  | c :: s' =>
      if is_space c
      then match cur with
           | [] => split_from [] s'
           | _ => rev cur :: split_from [] s'
           end
      else split_from (c :: cur) s'
  end.
Definition split (s : str) : list str := split_from [] s.

(** [s.replace("_", "-")] *)
Definition underscore : char := 95%N.
Definition hyphen : char := 45%N.
Definition replace_underscores (s : str) : str :=
  List.map (fun c => if char_eqb c underscore then hyphen else c) s.

(** [s.startswith(p)], returning the rest of [s] on success. *)
Fixpoint strip_prefix (p s : str) : option str :=
  match p, s with
  | [], _ => Some s
  | x :: p', y :: s' => if char_eqb x y then strip_prefix p' s' else None
  | _ :: _, [] => None
  end.

(** ** [bytes.decode("utf-8")] *)

Definition bytes := list byte.

Definition cont (n : N) : bool := ((128 <=? n) && (n <=? 191))%N.
Definition between (lo n hi : N) : bool := ((lo <=? n) && (n <=? hi))%N.

(** Strict decoding: overlong forms, surrogates and code points above
    U+10FFFF are errors, as is a truncated sequence. *)
Fixpoint utf8_decode (bs : bytes) : option str :=
  match bs with
  | [] => Some []
  | b0 :: r0 =>
      let n0 := Byte.to_N b0 in
      if (n0 <? 128)%N then option_map (cons n0) (utf8_decode r0)
      else
        match r0 with
        | [] => None
        | b1 :: r1 =>
            let n1 := Byte.to_N b1 in
            if between 194 n0 223 then
              if cont n1
              then option_map (cons ((n0 - 192) * 64 + (n1 - 128))%N) (utf8_decode r1)
              else None
            else
              match r1 with
              | [] => None
              | b2 :: r2 =>
                  let n2 := Byte.to_N b2 in
                  if between 224 n0 239 then
                    if between (if (n0 =? 224)%N then 160 else 128) n1
                               (if (n0 =? 237)%N then 159 else 191)
                       && cont n2
                    then option_map
                           (cons ((n0 - 224) * 4096 + (n1 - 128) * 64 + (n2 - 128))%N)
                           (utf8_decode r2)
                    else None
                  else
                    match r2 with
                    | [] => None
                    | b3 :: r3 =>
                        let n3 := Byte.to_N b3 in
                        if between 240 n0 244
                           && between (if (n0 =? 240)%N then 144 else 128) n1
                                      (if (n0 =? 244)%N then 143 else 191)
                           && cont n2 && cont n3
                        then option_map
                               (cons ((n0 - 240) * 262144 + (n1 - 128) * 4096
                                      + (n2 - 128) * 64 + (n3 - 128))%N)
                               (utf8_decode r3)
                        else None
                    end
              end
        end
  end.

(** ASCII text as the bytes a backend would send for it. *)
Definition ascii_bytes (s : string) : bytes := list_byte_of_string s.

(** ** Exceptions *)

Inductive exn : Type :=
| TypeError           (* subscripting [None] *)
| IndexError          (* [messages[-1]] on an empty list *)
| UnicodeDecodeError  (* [bytes.decode] on ill-formed input *)
| ClientError (code : str).  (* raised by the backend client *)

Inductive result (A : Type) : Type :=
| Ok (a : A)
| Raise (e : exn).
Arguments Ok {A} a.
Arguments Raise {A} e.


(** ** Dictionaries and the process environment *)

(** A Python [dict] with string keys: insertion-ordered, one entry per key. *)
Definition dict (V : Type) := list (str * V).

(** [d.get(k)] *)
Fixpoint dict_get {V} (d : dict V) (k : str) : option V :=
  match d with
  | [] => None
  | (k', v) :: d' => if str_eqb k' k then Some v else dict_get d' k
  end.

(** [d[k] = v]: an existing key keeps its position, a new one goes last. *)
Fixpoint dict_set {V} (d : dict V) (k : str) (v : V) : dict V :=
  match d with
  | [] => [(k, v)]
  | (k', v') :: d' =>
      if str_eqb k' k then (k, v) :: d' else (k', v') :: dict_set d' k v
  end.

(** [os.environ] after [load_dotenv()]. *)
Definition environ := dict str.

(** [os.environ.get(k, default)] *)
Definition env_get_default (env : environ) (k : str) (default : str) : str :=
  match dict_get env k with Some v => v | None => default end.

(** ** Registry construction (lines 31-54) *)

Record AgentConfig : Type := { agent_id : str; alias_id : str }.

(** The character class [[A-Z0-9_]]. *)
Definition in_class (c : char) : bool :=
  between 65 c 90 || between 48 c 57 || char_eqb c underscore.

Definition starts_with (p s : str) : bool :=
  match strip_prefix p s with Some _ => true | None => false end.

(** The group of [([A-Z0-9_]+)_ID] matched at the start of [s].  The group
    is greedy: it is extended while a match remains possible, and ends at
    the last place where ["_ID"] follows.  [seen] tells whether the group
    already holds a character. *)
Fixpoint group_from (seen : bool) (s : str) : option str :=
  match s with
  | [] => None
  | c :: s' =>
      if in_class c then
        match group_from true s' with
        | Some g => Some (c :: g)
        | None => if seen && starts_with (lit "_ID") s then Some [] else None
        end
      else None
  end.

(** [agent_pattern.match(key)] with
    [agent_pattern = re.compile(r"AGENT_([A-Z0-9_]+)_ID")]; the result is
    [match.group(1)].  [match] anchors the pattern at the start of the key
    only. *)
Definition agent_pattern_match (key : str) : option str :=
  match strip_prefix (lit "AGENT_") key with
  | Some rest => group_from false rest
  | None => None
  end.

(** [f"AGENT_{match.group(1)}_ALIAS_ID"] *)
Definition alias_key_of (group1 : str) : str :=
  lit "AGENT_" ++ group1 ++ lit "_ALIAS_ID".

(** Body of the loop [for key in os.environ]; [value] is [os.environ[key]]
    for the key being visited. *)
Definition load_agent (env : environ) (AGENTS : dict AgentConfig)
    (entry : str * str) : dict AgentConfig :=
  let '(key, value) := entry in
  match agent_pattern_match key with
  | Some group1 =>
      let agent_name := replace_underscores group1 in
      let agent_id := value in
      let alias_key := alias_key_of group1 in
      match dict_get env alias_key with
      | Some alias_id =>
          if str_truthy alias_id
          then dict_set AGENTS agent_name
                 {| agent_id := agent_id; alias_id := alias_id |}
          else AGENTS
      | None => AGENTS
      end
  | None => AGENTS
  end.

Definition build_agents (env : environ) : dict AgentConfig :=
  fold_left (load_agent env) env [].

Record Config : Type := {
  API_KEY : str;
  DEFAULT_AGENT : str;
  AGENTS : dict AgentConfig
}.

Definition load_config (env : environ) : Config :=
  {| API_KEY := env_get_default env (lit "API_KEY") (lit "bedrock-agent-proxy-key");
     DEFAULT_AGENT := env_get_default env (lit "DEFAULT_AGENT") (lit "COBWEBAI-ALIAS");
     AGENTS := build_agents env |}.

(** ** [validate_api_key] (lines 64-93) *)

(** [auth_header] is [request.headers.get('Authorization')]. *)
Definition validate_api_key (cfg : Config) (auth_header : option str) : bool :=
  if negb (str_truthy (API_KEY cfg)) || str_eqb (lower (API_KEY cfg)) (lit "none")
  then true
  else
    match auth_header with
    | None => false
    | Some header =>
        if negb (str_truthy header) then false
        else
          let parts := split header in
          if negb (Nat.eqb (List.length parts) 2)
             || negb (str_eqb (lower (nth 0 parts [])) (lit "bearer"))
          then false
          else
            let provided_key := nth 1 parts [] in
            if negb (str_eqb provided_key (API_KEY cfg)) then false
            else true
    end.

(** ** [list_models] (lines 283-315) *)

Record ErrorBody : Type := {
  err_message : str;
  err_type : str;
  err_param : option str;
  err_code : str
}.

Record ModelEntry : Type := {
  model_entry_id : str;
  model_entry_object : str;
  model_entry_created : Z;
  model_entry_owned_by : str
}.

Inductive ModelsBody : Type :=
| ModelsError (error : ErrorBody)
| ModelsList (object : str) (data : list ModelEntry).

(** A view's return value: the JSON body and the HTTP status. *)
Record ModelsResponse : Type := { models_body : ModelsBody; models_status : Z }.

Definition invalid_api_key_body : ErrorBody :=
  {| err_message := lit "Invalid API key";
     err_type := lit "invalid_request_error";
     err_param := None;
     err_code := lit "invalid_api_key" |}.

Definition list_models (cfg : Config) (auth_header : option str) : ModelsResponse :=
  if negb (validate_api_key cfg auth_header) then
    {| models_body := ModelsError invalid_api_key_body; models_status := 401 |}
  else
    let models_data :=
      List.map (fun item : str * AgentConfig =>
                  {| model_entry_id := fst item;
                     model_entry_object := lit "model";
                     model_entry_created := 1677610602;
                     model_entry_owned_by := lit "aws-bedrock" |})
               (AGENTS cfg) in
    {| models_body := ModelsList (lit "list") models_data; models_status := 200 |}.

(** ** Request data *)

(** A text-valued key of a JSON object: missing, [null], or a string. *)
Inductive field : Type :=
| Absent
| Null
| Text (s : str).

(** [obj.get(key)] *)
Definition get (f : field) : pyval :=
  match f with Text s => PStr s | Absent | Null => PNone end.

(** [obj.get(key, default)]: the default stands in for a missing key only. *)
Definition get_or (f : field) (default : pyval) : pyval :=
  match f with Absent => default | Null => PNone | Text s => PStr s end.

(** [v == "literal"] for a value read with [get]. *)
Definition is_text (v : pyval) (s : str) : bool :=
  match v with PNone => false | PStr t => str_eqb t s end.

Record Message : Type := { role : field; content : field }.

(** The parts of the request [chat_completions] can see: the Authorization
    header and the keys of the JSON body. *)
Record Request : Type := {
  authorization : option str;
  body_messages : option (list Message);
  body_model : option str;
  body_stream : bool;
  body_session_id : option str
}.

(** ** Context collapsing (lines 120-152) *)

(** [for msg in reversed(messages)] up to its [break]; the argument is the
    reversed list and the result the final [last_user_message]. *)
Fixpoint scan_last_user (reversed_messages : list Message) : pyval :=
  match reversed_messages with
  | [] => PStr []
  | msg :: rest =>
      if is_text (get (role msg)) (lit "user")
      then get (content msg)
      else scan_last_user rest
  end.

(** [messages[-1]] *)
Fixpoint last_message (messages : list Message) : result Message :=
  match messages with
  | [] => Raise IndexError
  | [m] => Ok m
  | _ :: rest => last_message rest
  end.

(** Lines 120-129.  The flag tells whether the branch that logs
    "No user message found in conversation, using last message" ran. *)
Definition select_anchor (messages : list Message) : result (pyval * bool) :=
  let last_user_message := scan_last_user (rev messages) in
  if negb (truthy last_user_message) then
    match last_message messages with
    | Raise e => Raise e
    | Ok m => Ok (get_or (content m) (PStr []), true)
    end
  else Ok (last_user_message, false).

(** Body of the loop over [messages[:-1]] (lines 135-147); the state is
    [(context, has_previous_messages)]. *)
Definition context_step (st : str * bool) (msg : Message) : str * bool :=
  let '(context, has_previous_messages) := st in
  let role := get (role msg) in
  let content := get (content msg) in
  if is_text role (lit "system") then
    (context ++ lit "System instruction: " ++ fmt content ++ nl, true)
  else if is_text role (lit "user") then
    (context ++ lit "User: " ++ fmt content ++ nl, true)
  else if is_text role (lit "assistant") then
    (context ++ lit "Assistant: " ++ fmt content ++ nl, true)
  else (context, has_previous_messages).

Definition build_context (messages : list Message) : str * bool :=
  fold_left context_step (removelast messages)
            (lit "Previous conversation:" ++ nl, false).

(** Lines 149-152. *)
Definition full_input_of (messages : list Message) (last_user_message : pyval) : pyval :=
  let '(context, has_previous_messages) := build_context messages in
  if has_previous_messages
  then PStr (context ++ nl ++ nl ++ lit "Current message: " ++ fmt last_user_message)
  else last_user_message.

Record Collapsed : Type := { inputText : pyval; usedFallback : bool }.

(** Lines 120-152 as one function of the message list. *)
Definition collapse (messages : list Message) : result Collapsed :=
  match select_anchor messages with
  | Raise e => Raise e
  | Ok (last_user_message, warned) =>
      Ok {| inputText := full_input_of messages last_user_message;
            usedFallback := warned |}
  end.

(** ** Agent resolution (lines 109-118) *)

(** [agent_config = AGENTS.get(model_id)], the default on a miss, then the
    two subscripts; subscripting [None] raises [TypeError].  A registered
    entry is a two-key dict and so always true. *)
Definition resolve (cfg : Config) (model_id : str) : result AgentConfig :=
  let agent_config := dict_get (AGENTS cfg) model_id in
  let agent_config :=
    match agent_config with
    | Some c => Some c
    | None => dict_get (AGENTS cfg) (DEFAULT_AGENT cfg)
    end in
  match agent_config with
  | Some c => Ok c
  | None => Raise TypeError
  end.

(** ** Response relay (lines 171-281) *)

(** An element of [response["completion"]]: an event with a ["chunk"] key
    carrying bytes, or any other event. *)
Inductive Event : Type :=
| ChunkEvent (chunk_bytes : bytes)
| OtherEvent.

(** The [delta] object of a streamed choice: [{"role": ...}],
    [{"content": ...}] or [{}]. *)
Record Delta : Type := { delta_role : option str; delta_content : option str }.

Record ChunkChoice : Type := {
  choice_index : Z;
  choice_delta : Delta;
  choice_finish_reason : option str
}.

Record Chunk : Type := {
  chunk_id : str;
  chunk_object : str;
  chunk_created : Z;
  chunk_model : str;
  chunk_choices : list ChunkChoice
}.

(** What the generator yields: [f"data: {json.dumps(chunk)}\n\n"] for a
    frame, or the literal ["data: [DONE]\n\n"]. *)
Inductive Sse : Type :=
| Data (chunk : Chunk)
| DoneMarker.

(** The text of a yielded item, given [json.dumps]. *)
Definition sse_text (json_dumps : Chunk -> str) (item : Sse) : str :=
  match item with
  | Data chunk => lit "data: " ++ json_dumps chunk ++ nl ++ nl
  | DoneMarker => lit "data: [DONE]" ++ nl ++ nl
  end.

(** A finished run of the generator: the items yielded in order and how it
    ended ([None]: it returned; [Some e]: it raised [e]). *)
Record Stream : Type := { yielded : list Sse; ending : option exn }.

Section Relay.
Variables (response_id : str) (created_time : Z) (model_id : str).

Definition frame (delta : Delta) (finish_reason : option str) : Chunk :=
  {| chunk_id := response_id;
     chunk_object := lit "chat.completion.chunk";
     chunk_created := created_time;
     chunk_model := model_id;
     chunk_choices := [ {| choice_index := 0;
                           choice_delta := delta;
                           choice_finish_reason := finish_reason |} ] |}.

Definition role_frame : Chunk :=
  frame {| delta_role := Some (lit "assistant"); delta_content := None |} None.
Definition content_frame (content : str) : Chunk :=
  frame {| delta_role := None; delta_content := Some content |} None.
Definition finish_frame : Chunk :=
  frame {| delta_role := None; delta_content := None |} (Some (lit "stop")).

(** [for event in response["completion"]] of the generator (lines
    197-216): the frames yielded and the exception that ended the loop,
    if any. *)
Fixpoint stream_loop (events : list Event) : list Sse * option exn :=
  match events with
  | [] => ([], None)
  | ChunkEvent b :: rest =>
      match utf8_decode b with
      | None => ([], Some UnicodeDecodeError)
      | Some content =>
          let '(items, e) := stream_loop rest in
          (if str_truthy content then Data (content_frame content) :: items
           else items, e)
      end
  | OtherEvent :: rest => stream_loop rest
  end.

(** [generate_stream] (lines 177-235), run to its end. *)
Definition generate_stream (events : list Event) : Stream :=
  let '(items, e) := stream_loop events in
  match e with
  | Some err => {| yielded := Data role_frame :: items; ending := Some err |}
  | None =>
      {| yielded := Data role_frame :: items ++ [Data finish_frame; DoneMarker];
         ending := None |}
  end.
End Relay.

(** Aggregate mode, lines 252-255; [completion] is the accumulator. *)
Fixpoint aggregate_from (completion : str) (events : list Event) : result str :=
  match events with
  | [] => Ok completion
  | ChunkEvent b :: rest =>
      match utf8_decode b with
      | None => Raise UnicodeDecodeError
      | Some text => aggregate_from (completion ++ text) rest
      end
  | OtherEvent :: rest => aggregate_from completion rest
  end.

Definition aggregate (events : list Event) : result str := aggregate_from [] events.

(** ** The handler's surroundings *)

(** Keyword arguments of [bedrock_agent_runtime.invoke_agent]. *)
Record AgentRequest : Type := {
  agentId : str;
  agentAliasId : str;
  sessionId : str;
  request_inputText : pyval;
  enableTrace : bool
}.

(** What lies outside the module: the n-th result of
    [os.urandom(4).hex()], the n-th value of [int(time.time())], and the
    backend client, which answers with the events of
    [response["completion"]] or raises. *)
Record System : Type := {
  urandom4_hex : nat -> str;
  int_time : nat -> Z;
  invoke_agent : AgentRequest -> result (list Event)
}.

(** The effects a request leaves behind: how often randomness and the
    clock were read, and the backend invocations made, oldest first. *)
Record World : Type := {
  urandom_calls : nat;
  time_calls : nat;
  invocations : list AgentRequest
}.

(** Computations that read and update the world and may raise; the world
    reached when an exception is raised is kept. *)
Definition M (A : Type) : Type := World -> result A * World.

Definition ret {A} (a : A) : M A := fun w => (Ok a, w).

Definition bind {A B} (c : M A) (k : A -> M B) : M B :=
  fun w =>
    match c w with
    | (Ok a, w') => k a w'
    | (Raise e, w') => (Raise e, w')
    end.

Definition lift {A} (r : result A) : M A := fun w => (r, w).

Notation "x <- c ;; k" := (bind c (fun x => k))
  (at level 61, c at next level, right associativity).

Definition os_urandom4_hex (sys : System) : M str :=
  fun w =>
    (Ok (urandom4_hex sys (urandom_calls w)),
     {| urandom_calls := S (urandom_calls w);
        time_calls := time_calls w;
        invocations := invocations w |}).

Definition time_now (sys : System) : M Z :=
  fun w =>
    (Ok (int_time sys (time_calls w)),
     {| urandom_calls := urandom_calls w;
        time_calls := S (time_calls w);
        invocations := invocations w |}).

Definition call_invoke_agent (sys : System) (agent_request : AgentRequest)
  : M (list Event) :=
  fun w =>
    (invoke_agent sys agent_request,
     {| urandom_calls := urandom_calls w;
        time_calls := time_calls w;
        invocations := invocations w ++ [agent_request] |}).

(** ** [chat_completions] (lines 95-281) *)

Record ChatMessage : Type := { message_role : str; message_content : str }.

Record CompletionChoice : Type := {
  completion_choice_index : Z;
  completion_choice_message : ChatMessage;
  completion_choice_finish_reason : str
}.

Record Usage : Type := {
  prompt_tokens : Z;
  completion_tokens : Z;
  total_tokens : Z
}.

Record ChatCompletion : Type := {
  completion_id : str;
  completion_object : str;
  completion_created : Z;
  completion_model : str;
  completion_choices : list CompletionChoice;
  completion_usage : Usage
}.

(** The view's return value: [jsonify(openai_response)], or the streaming
    [Response] with the run of its generator as body. *)
Inductive ChatResponse : Type :=
| JsonResponse (body : ChatCompletion)
| StreamResponse (mimetype : str) (headers : list (str * str)) (body : Stream).

Definition stream_headers : list (str * str) :=
  [ (lit "Cache-Control", lit "no-cache");
    (lit "Connection", lit "keep-alive");
    (lit "X-Accel-Buffering", lit "no");
    (lit "Transfer-Encoding", lit "chunked") ].

(** The source opens a [try:] at line 100 and gives it no handler, so
    whatever the body raises leaves the view. *)
Definition chat_completions (cfg : Config) (sys : System) (request : Request)
  : M ChatResponse :=
  let messages :=
    match body_messages request with Some l => l | None => [] end in
  let model_id :=
    match body_model request with Some m => m | None => DEFAULT_AGENT cfg end in
  let stream_mode := body_stream request in
  agent_config <- lift (resolve cfg model_id) ;;
  let agent_id := agent_id agent_config in
  let alias_id := alias_id agent_config in
  collapsed <- lift (collapse messages) ;;
  let full_input := inputText collapsed in
  (* the default of [data.get("session_id", ...)] is evaluated in any case *)
  session_hex <- os_urandom4_hex sys ;;
  let session_id :=
    match body_session_id request with
    | Some s => s
    | None => lit "session-" ++ model_id ++ lit "-" ++ session_hex
    end in
  let agent_request :=
    {| agentId := agent_id;
       agentAliasId := alias_id;
       sessionId := session_id;
       request_inputText := full_input;
       enableTrace := false |} in
  response <- call_invoke_agent sys agent_request ;;
  response_hex <- os_urandom4_hex sys ;;
  let response_id := lit "chatcmpl-" ++ model_id ++ lit "-" ++ response_hex in
  created_time <- time_now sys ;;
  if stream_mode then
    ret (StreamResponse (lit "text/event-stream") stream_headers
           (generate_stream response_id created_time model_id response))
  else
    completion <- lift (aggregate response) ;;
    ret (JsonResponse
           {| completion_id := response_id;
              completion_object := lit "chat.completion";
              completion_created := created_time;
              completion_model := model_id;
              completion_choices :=
                [ {| completion_choice_index := 0;
                     completion_choice_message :=
                       {| message_role := lit "assistant";
                          message_content := completion |};
                     completion_choice_finish_reason := lit "stop" |} ];
              completion_usage :=
                {| prompt_tokens := -1;
                   completion_tokens := -1;
                   total_tokens := -1 |} |}).

(** * Vocabulary of the properties *)

(** ** Registry *)

(** What the construction loop guarantees of a registered entry: some
    variable of the environment matches the pattern, the entry is filed
    under its group with hyphens for underscores, its agent id is that
    variable's value, and its alias is the non-empty value of the alias
    variable. *)
Definition registered_from (env : environ) (name : str) (c : AgentConfig) : Prop :=
  exists key group1,
    In (key, agent_id c) env /\
    agent_pattern_match key = Some group1 /\
    name = replace_underscores group1 /\
    dict_get env (alias_key_of group1) = Some (alias_id c) /\
    alias_id c <> [].

(** A candidate: a variable that matches the pattern and whose alias
    variable is set to a non-empty value. *)
Definition complete_candidate (env : environ) (name : str) : Prop :=
  exists key value group1 alias,
    In (key, value) env /\
    agent_pattern_match key = Some group1 /\
    name = replace_underscores group1 /\
    dict_get env (alias_key_of group1) = Some alias /\
    alias <> [].

(** The invariant of the construction loop. *)
Definition sound_registry (env : environ) (agents : dict AgentConfig) : Prop :=
  forall name c, dict_get agents name = Some c -> registered_from env name c.

(** A small configuration used in the examples. *)
Definition sample_environ : environ :=
  [ (lit "AGENT_MY_BOT_ID", lit "AG1");
    (lit "AGENT_MY_BOT_ALIAS_ID", lit "AL1");
    (lit "AGENT_LONELY_ID", lit "AG2");
    (lit "DEFAULT_AGENT", lit "MY-BOT");
    (lit "API_KEY", lit "s3cret") ].

(** ** Bearer-token check *)

(** The configured key switches the check off. *)
Definition check_disabled (cfg : Config) : Prop :=
  API_KEY cfg = [] \/ lower (API_KEY cfg) = lit "none".

(** The header splits on whitespace into a scheme that reads "bearer" in
    any letter case and the configured key. *)
Definition bearer_of_key (cfg : Config) (auth_header : option str) : Prop :=
  exists header scheme,
    auth_header = Some header /\
    split header = [scheme; API_KEY cfg] /\
    lower scheme = lit "bearer".

(** The answer of [list_models] to a request that fails the check. *)
Definition unauthorized : ModelsResponse :=
  {| models_body := ModelsError invalid_api_key_body; models_status := 401 |}.

Definition sample_config : Config := load_config sample_environ.

(** ** Requests and what they send *)

(** [msg.get("role") == "user"] *)
Definition is_user (m : Message) : bool := is_text (get (role m)) (lit "user").

(** A message with the given role and text, as in the scenarios. *)
Definition message_of (r c : string) : Message :=
  {| role := Text (lit r); content := Text (lit c) |}.

(** [data.get("model", DEFAULT_AGENT)] and [data.get("messages", [])]. *)
Definition requested_model (cfg : Config) (request : Request) : str :=
  match body_model request with Some m => m | None => DEFAULT_AGENT cfg end.
Definition requested_messages (request : Request) : list Message :=
  match body_messages request with Some l => l | None => [] end.

(** The invocation built at lines 154-164 for a resolved agent and a
    collapsed input, in a world where randomness was read [n] times. *)
Definition agent_request_of (cfg : Config) (sys : System) (request : Request)
    (n : nat) (agent : AgentConfig) (c : Collapsed) : AgentRequest :=
  {| agentId := agent_id agent;
     agentAliasId := alias_id agent;
     sessionId :=
       match body_session_id request with
       | Some s => s
       | None => lit "session-" ++ requested_model cfg request ++ lit "-"
                 ++ urandom4_hex sys n
       end;
     request_inputText := inputText c;
     enableTrace := false |}.

(** Surroundings used in the examples: the backend answers "Hel", an
    event without chunk, an empty chunk and "lo". *)
Definition sample_system : System :=
  {| urandom4_hex := fun n => lit "00c0ffe" ++ [N.of_nat (48 + n)];
     int_time := fun n => (1700000000 + Z.of_nat n)%Z;
     invoke_agent := fun _ =>
       Ok [ChunkEvent (ascii_bytes "Hel"); OtherEvent; ChunkEvent [];
           ChunkEvent (ascii_bytes "lo")] |}.

Definition initial_world : World :=
  {| urandom_calls := 0; time_calls := 0; invocations := [] |}.

Definition scenario_request : Request :=
  {| authorization := None;
     body_messages := Some [message_of "system" "Be terse"; message_of "user" "Hi"];
     body_model := Some (lit "MY-BOT");
     body_stream := true;
     body_session_id := None |}.

(** The same request with another Authorization header. *)
Definition with_authorization (request : Request) (h : option str) : Request :=
  {| authorization := h;
     body_messages := body_messages request;
     body_model := body_model request;
     body_stream := body_stream request;
     body_session_id := body_session_id request |}.

(** ** Relay *)

(** The event is no chunk, or its bytes are well-formed UTF-8. *)
Definition decodable (ev : Event) : bool :=
  match ev with
  | ChunkEvent b => match utf8_decode b with Some _ => true | None => false end
  | OtherEvent => true
  end.

(** The decoded fragments of an event sequence, in backend order. *)
Definition fragments (events : list Event) : list str :=
  flat_map (fun ev =>
              match ev with
              | ChunkEvent b =>
                  match utf8_decode b with Some s => [s] | None => [] end
              | OtherEvent => []
              end) events.

(** The [content] fields found in the deltas of the yielded frames. *)
Definition delta_contents (items : list Sse) : list str :=
  flat_map (fun item =>
              match item with
              | Data chunk =>
                  flat_map (fun ch =>
                              match delta_content (choice_delta ch) with
                              | Some s => [s]
                              | None => []
                              end) (chunk_choices chunk)
              | DoneMarker => []
              end) items.

(** A yielded content frame. *)
Definition content_item (response_id : str) (created_time : Z) (model_id : str)
    (s : str) : Sse :=
  Data (content_frame response_id created_time model_id s).

Definition sample_events : list Event :=
  [ChunkEvent (ascii_bytes "Hel"); OtherEvent; ChunkEvent [];
   ChunkEvent (ascii_bytes "lo")].

(** ** Further vocabulary: registry names *)

(** The characters a registered model identifier can hold: capitals,
    digits and the hyphen. *)
Definition is_name_char (c : char) : bool :=
  between 65 c 90 || between 48 c 57 || char_eqb c hyphen.

(** The identifiers of a models listing, in order. *)
Definition listed_ids (r : ModelsResponse) : list str :=
  match models_body r with
  | ModelsList _ data => List.map model_entry_id data
  | ModelsError _ => []
  end.

(** ** Further vocabulary: headers *)

(** No character of the string is a separator of [split]. *)
Definition no_space (s : str) : bool := forallb (fun c => negb (is_space c)) s.

(** ** Further vocabulary: the transcript *)

(** The label a message gets in the transcript, if its role has one. *)
Definition role_label (msg : Message) : option str :=
  if is_text (get (role msg)) (lit "system") then Some (lit "System instruction: ")
  else if is_text (get (role msg)) (lit "user") then Some (lit "User: ")
  else if is_text (get (role msg)) (lit "assistant") then Some (lit "Assistant: ")
  else None.

Definition labelled (msg : Message) : bool :=
  match role_label msg with Some _ => true | None => false end.

(** The transcript line of a message: label, content and a newline, or
    nothing for a role without label. *)
Definition transcript_line (msg : Message) : str :=
  match role_label msg with
  | Some label => label ++ fmt (get (content msg)) ++ nl
  | None => []
  end.

(** The transcript of the messages before the last one. *)
Definition transcript (before : list Message) : str :=
  lit "Previous conversation:" ++ nl ++ List.concat (List.map transcript_line before).

(** ** Further vocabulary: the relay *)

(** The bytes of all chunks of an event sequence, end to end. *)
Definition chunk_bytes_of (events : list Event) : bytes :=
  flat_map (fun ev => match ev with ChunkEvent b => b | OtherEvent => [] end) events.

(** The item is a content frame with an empty content. *)
Definition empty_content_item (item : Sse) : bool :=
  match item with
  | Data chunk =>
      existsb (fun ch =>
                 match delta_content (choice_delta ch) with
                 | Some [] => true
                 | _ => false
                 end) (chunk_choices chunk)
  | DoneMarker => false
  end.

(** ** Further vocabulary: the handler *)

(** The world after the session draw and the backend call. *)
Definition world_after_invoke (w : World) (agent_request : AgentRequest) : World :=
  {| urandom_calls := S (urandom_calls w);
     time_calls := time_calls w;
     invocations := invocations w ++ [agent_request] |}.

(** The world after a request that got its answer from the backend. *)
Definition world_after_answer (w : World) (agent_request : AgentRequest) : World :=
  {| urandom_calls := S (S (urandom_calls w));
     time_calls := S (time_calls w);
     invocations := invocations w ++ [agent_request] |}.

(** [f"chatcmpl-{model_id}-{os.urandom(4).hex()}"], with the draw that
    follows the session draw. *)
Definition response_id_of (cfg : Config) (sys : System) (request : Request)
    (w : World) : str :=
  lit "chatcmpl-" ++ requested_model cfg request ++ lit "-"
  ++ urandom4_hex sys (S (urandom_calls w)).

(** The body of an aggregate answer (lines 258-278). *)
Definition completion_of (response_id : str) (created_time : Z) (model_id : str)
    (completion : str) : ChatCompletion :=
  {| completion_id := response_id;
     completion_object := lit "chat.completion";
     completion_created := created_time;
     completion_model := model_id;
     completion_choices :=
       [ {| completion_choice_index := 0;
            completion_choice_message :=
              {| message_role := lit "assistant";
                 message_content := completion |};
            completion_choice_finish_reason := lit "stop" |} ];
     completion_usage :=
       {| prompt_tokens := -1; completion_tokens := -1; total_tokens := -1 |} |}.

(** Every [model] field an answer carries. *)
Definition response_models (r : ChatResponse) : list str :=
  match r with
  | JsonResponse body => [completion_model body]
  | StreamResponse _ _ body =>
      flat_map (fun item =>
                  match item with
                  | Data chunk => [chunk_model chunk]
                  | DoneMarker => []
                  end) (yielded body)
  end.

(** The same request in the other delivery mode. *)
Definition with_stream (request : Request) (stream : bool) : Request :=
  {| authorization := authorization request;
     body_messages := body_messages request;
     body_model := body_model request;
     body_stream := stream;
     body_session_id := body_session_id request |}.

(** Line 322: what the start-up log reports as "API Key required". *)
Definition api_key_required_logged (cfg : Config) : bool :=
  negb (str_eqb (API_KEY cfg) (lit "none")) && negb (str_eqb (API_KEY cfg) []).

(** Surroundings whose backend client raises, and whose backend sends a
    chunk that is not UTF-8 between two that are. *)
Definition failing_system : System :=
  {| urandom4_hex := urandom4_hex sample_system;
     int_time := int_time sample_system;
     invoke_agent := fun _ => Raise (ClientError (lit "ThrottlingException")) |}.

Definition garbled_system : System :=
  {| urandom4_hex := urandom4_hex sample_system;
     int_time := int_time sample_system;
     invoke_agent := fun _ =>
       Ok ([ChunkEvent (ascii_bytes "Hel")] ++ ChunkEvent [xff]
           :: [ChunkEvent (ascii_bytes "lo")]) |}.

(** The scenario request for a model the registry does not know. *)
Definition unknown_model_request : Request :=
  {| authorization := None;
     body_messages := body_messages scenario_request;
     body_model := Some (lit "unknown-model");
     body_stream := true;
     body_session_id := None |}.

(** What the scenario request collapses to and the agent it resolves to. *)
Definition scenario_collapsed : Collapsed :=
  {| inputText :=
       PStr (lit "Previous conversation:" ++ nl
             ++ lit "System instruction: Be terse" ++ nl
             ++ nl ++ nl ++ lit "Current message: Hi");
     usedFallback := false |}.

Definition scenario_agent : AgentConfig :=
  {| agent_id := lit "AG1"; alias_id := lit "AL1" |}.

(** * Properties *)

(** ** Strings and dictionaries *)

Lemma str_eqb_eq (a b : str) : str_eqb a b = true <-> a = b.
Proof.
  revert b; induction a as [|x a IH]; intros [|y b]; simpl; split;
    try congruence; try reflexivity.
  - intros H. apply andb_true_iff in H. destruct H as [Hx Hab].
    apply N.eqb_eq in Hx. apply IH in Hab. congruence.
  - intros H. injection H as -> ->. apply andb_true_iff. split.
    + apply N.eqb_refl.
    + now apply IH.
Qed.

Lemma str_eqb_refl (a : str) : str_eqb a a = true.
Proof. now apply str_eqb_eq. Qed.

Lemma str_eqb_neq (a b : str) : str_eqb a b = false <-> a <> b.
Proof.
  split.
  - intros H E. apply str_eqb_eq in E. congruence.
  - intros H. destruct (str_eqb a b) eqn:E; [|reflexivity].
    apply str_eqb_eq in E. contradiction.
Qed.

Lemma str_truthy_true (s : str) : str_truthy s = true <-> s <> [].
Proof. destruct s; simpl; split; congruence. Qed.

Lemma dict_get_set_same {V} (d : dict V) k v : dict_get (dict_set d k v) k = Some v.
Proof.
  induction d as [|[k' v'] d IH]; simpl.
  - now rewrite str_eqb_refl.
  - destruct (str_eqb k' k) eqn:E; simpl.
    + now rewrite str_eqb_refl.
    + now rewrite E.
Qed.

Lemma dict_get_set_other {V} (d : dict V) k v k' :
  k <> k' -> dict_get (dict_set d k v) k' = dict_get d k'.
Proof.
  intros Hne. induction d as [|[k0 v0] d IH]; simpl.
  - apply str_eqb_neq in Hne. now rewrite Hne.
  - destruct (str_eqb k0 k) eqn:E; simpl.
    + apply str_eqb_eq in E. subst k0.
      apply str_eqb_neq in Hne. now rewrite Hne.
    + destruct (str_eqb k0 k'); [reflexivity | exact IH].
Qed.

(** ** Registry construction *)

Lemma load_agent_sound (env : environ) agents entry :
  In entry env -> sound_registry env agents ->
  sound_registry env (load_agent env agents entry).
Proof.
  intros Hin Hinv. destruct entry as [key value]. unfold load_agent.
  destruct (agent_pattern_match key) as [g|] eqn:Hm; [|exact Hinv].
  destruct (dict_get env (alias_key_of g)) as [alias|] eqn:Ha; [|exact Hinv].
  destruct (str_truthy alias) eqn:Ht; [|exact Hinv].
  intros name c Hget.
  destruct (str_eqb (replace_underscores g) name) eqn:E.
  - apply str_eqb_eq in E. subst name.
    rewrite dict_get_set_same in Hget. injection Hget as <-.
    exists key, g. simpl. repeat split; try assumption.
    now apply str_truthy_true.
  - apply str_eqb_neq in E.
    rewrite dict_get_set_other in Hget by exact E.
    now apply Hinv.
Qed.

Lemma fold_load_agent_sound (env : environ) entries agents :
  incl entries env -> sound_registry env agents ->
  sound_registry env (fold_left (load_agent env) entries agents).
Proof.
  revert agents. induction entries as [|e entries IH]; intros agents Hi Hinv.
  - exact Hinv.
  - simpl. apply IH.
    + intros x Hx. apply Hi. now right.
    + apply load_agent_sound; [apply Hi; now left | exact Hinv].
Qed.

Lemma load_agent_keeps (env : environ) agents entry name :
  (exists c, dict_get agents name = Some c) ->
  exists c, dict_get (load_agent env agents entry) name = Some c.
Proof.
  intros [c Hc]. destruct entry as [key value]. unfold load_agent.
  destruct (agent_pattern_match key) as [g|]; [|eauto].
  destruct (dict_get env (alias_key_of g)) as [alias|]; [|eauto].
  destruct (str_truthy alias); [|eauto].
  destruct (str_eqb (replace_underscores g) name) eqn:E.
  - apply str_eqb_eq in E. subst name. rewrite dict_get_set_same. eauto.
  - apply str_eqb_neq in E. rewrite dict_get_set_other by exact E. eauto.
Qed.

Lemma fold_load_agent_keeps (env : environ) entries agents name :
  (exists c, dict_get agents name = Some c) ->
  exists c, dict_get (fold_left (load_agent env) entries agents) name = Some c.
Proof.
  revert agents. induction entries as [|e entries IH]; intros agents H.
  - exact H.
  - simpl. apply IH. now apply load_agent_keeps.
Qed.

Lemma fold_load_agent_registers (env : environ) entries agents key value g alias :
  In (key, value) entries ->
  agent_pattern_match key = Some g ->
  dict_get env (alias_key_of g) = Some alias ->
  alias <> [] ->
  exists c,
    dict_get (fold_left (load_agent env) entries agents) (replace_underscores g)
    = Some c.
Proof.
  revert agents. induction entries as [|e entries IH];
    intros agents Hin Hm Ha Hne; [contradiction|].
  simpl. destruct Hin as [-> | Hin].
  - apply fold_load_agent_keeps. unfold load_agent.
    rewrite Hm. cbn beta iota zeta. rewrite Ha.
    apply str_truthy_true in Hne. rewrite Hne.
    rewrite dict_get_set_same. eauto.
  - now apply IH.
Qed.

(** C8.  Registry construction registers an entry only when both
    variables are in the environment: one whose name matches the pattern
    [AGENT_<X>_ID] (its value is the agent id) and the alias variable
    [AGENT_<X>_ALIAS_ID], with a non-empty value.  The entry carries the
    two values and is filed under [<X>] with underscores replaced by
    hyphens.  A name is registered exactly when such a pair exists, and a
    variable that matches nothing or lacks its alias leaves the registry
    as it was, without an error. *)
Theorem registry_construction (env : environ) :
  (forall name c,
      dict_get (build_agents env) name = Some c -> registered_from env name c) /\
  (forall name,
      (exists c, dict_get (build_agents env) name = Some c)
      <-> complete_candidate env name) /\
  (forall agents key value,
      (forall group1 alias,
          agent_pattern_match key = Some group1 ->
          dict_get env (alias_key_of group1) = Some alias -> alias = []) ->
      load_agent env agents (key, value) = agents).
Proof.
  assert (Hsound : sound_registry env (build_agents env)).
  { apply fold_load_agent_sound; [apply incl_refl | intros name c H; discriminate]. }
  split; [exact Hsound|]. split.
  - intros name. split.
    + intros [c Hc]. destruct (Hsound name c Hc) as (key & g & H1 & H2 & H3 & H4 & H5).
      exists key, (agent_id c), g, (alias_id c). repeat split; assumption.
    + intros (key & value & g & alias & H1 & H2 & -> & H4 & H5).
      unfold build_agents.
      now apply fold_load_agent_registers with (key := key) (value := value) (alias := alias).
  - intros agents key value Hmiss. unfold load_agent.
    destruct (agent_pattern_match key) as [g|]; [|reflexivity].
    destruct (dict_get env (alias_key_of g)) as [alias|] eqn:Ha; [|reflexivity].
    rewrite (Hmiss g alias eq_refl Ha). reflexivity.
Qed.

Lemma registry_construction_witness :
  registered_from sample_environ (lit "MY-BOT")
    {| agent_id := lit "AG1"; alias_id := lit "AL1" |} /\
  complete_candidate sample_environ (lit "MY-BOT") /\
  load_agent sample_environ [] (lit "AGENT_LONELY_ID", lit "AG2") = [].
Proof.
  destruct (registry_construction sample_environ) as (H1 & H2 & H3).
  split; [|split].
  - apply H1. vm_compute. reflexivity.
  - apply H2. eexists. vm_compute. reflexivity.
  - apply H3. intros g alias Hm Ha. vm_compute in Hm.
    injection Hm as <-. vm_compute in Ha. discriminate.
Defined.

(** ** The bearer-token check *)

Lemma check_disabled_test (cfg : Config) :
  negb (str_truthy (API_KEY cfg)) || str_eqb (lower (API_KEY cfg)) (lit "none") = true
  <-> check_disabled cfg.
Proof.
  unfold check_disabled. rewrite orb_true_iff, negb_true_iff, str_eqb_eq.
  destruct (API_KEY cfg); simpl; split; intros [H|H]; auto; discriminate.
Qed.

Lemma validate_disabled (cfg : Config) h :
  check_disabled cfg -> validate_api_key cfg h = true.
Proof.
  intros H. apply check_disabled_test in H. unfold validate_api_key.
  now rewrite H.
Qed.

Lemma validate_enforced (cfg : Config) h :
  ~ check_disabled cfg ->
  (validate_api_key cfg h = true <-> bearer_of_key cfg h).
Proof.
  intros Hen. unfold validate_api_key.
  destruct (negb (str_truthy (API_KEY cfg))
            || str_eqb (lower (API_KEY cfg)) (lit "none")) eqn:Hc.
  { apply check_disabled_test in Hc. contradiction. }
  destruct h as [header|].
  2:{ split; [discriminate | intros (x & s & H & _); discriminate]. }
  destruct (str_truthy header) eqn:Ht; simpl.
  2:{ split; [discriminate|]. intros (x & s & H & Hs & _).
      injection H as <-. destruct header; [discriminate Hs | discriminate Ht]. }
  destruct (split header) as [|p0 [|p1 [|p2 rest]]] eqn:Hs; simpl;
    try (split; [discriminate | intros (x & s & H & Hs' & _);
                 injection H as <-; rewrite Hs in Hs'; discriminate]).
  destruct (str_eqb (lower p0) (lit "bearer")) eqn:Hb; simpl.
  - destruct (str_eqb p1 (API_KEY cfg)) eqn:Hk; simpl.
    + split; [|reflexivity]. intros _.
      apply str_eqb_eq in Hb, Hk. subst p1.
      exists header, p0. repeat split; assumption.
    + split; [discriminate|]. intros (x & s & H & Hs' & _).
      injection H as <-. rewrite Hs in Hs'. injection Hs' as _ ->.
      rewrite str_eqb_refl in Hk. discriminate.
  - split; [discriminate|]. intros (x & s & H & Hs' & Hl).
    injection H as <-. rewrite Hs in Hs'. injection Hs' as -> _.
    rewrite Hl, str_eqb_refl in Hb. discriminate.
Qed.

(** C9, as the code has it.  The models listing skips the bearer-token
    check (every request passes, whatever its header) exactly when the
    configured key is the empty string or reads "none" in any letter case;
    a key left unset in the environment takes the built-in default, which
    is enforced.  When the check is on, a request passes exactly when its
    Authorization header splits on whitespace into a "bearer" scheme (any
    letter case) and the configured key; a missing or empty header, another
    scheme, a different number of parts or another key gets the structured
    error body with status 401, and a request that passes gets the list
    with status 200. *)
Theorem models_listing_auth (cfg : Config) (auth_header : option str) :
  ((forall h, validate_api_key cfg h = true) <-> check_disabled cfg) /\
  (forall env : environ,
      dict_get env (lit "API_KEY") = None ->
      API_KEY (load_config env) = lit "bedrock-agent-proxy-key" /\
      ~ check_disabled (load_config env)) /\
  (~ check_disabled cfg ->
   (validate_api_key cfg auth_header = true <-> bearer_of_key cfg auth_header)) /\
  (validate_api_key cfg auth_header = false ->
   list_models cfg auth_header = unauthorized) /\
  (validate_api_key cfg auth_header = true ->
   exists data,
     list_models cfg auth_header =
     {| models_body := ModelsList (lit "list") data; models_status := 200 |}).
Proof.
  split; [|split; [|split; [|split]]].
  - split.
    + intros Hall. specialize (Hall None). unfold validate_api_key in Hall.
      destruct (negb (str_truthy (API_KEY cfg))
                || str_eqb (lower (API_KEY cfg)) (lit "none")) eqn:Hc;
        [now apply check_disabled_test | discriminate].
    + intros Hd h. now apply validate_disabled.
  - intros env Hunset.
    assert (Hk : API_KEY (load_config env) = lit "bedrock-agent-proxy-key").
    { unfold load_config, env_get_default. simpl. now rewrite Hunset. }
    split; [exact Hk|]. unfold check_disabled. rewrite Hk.
    intros [H|H]; vm_compute in H; discriminate.
  - apply validate_enforced.
  - intros Hv. unfold list_models. now rewrite Hv.
  - intros Hv. unfold list_models. rewrite Hv. simpl. eauto.
Qed.

Lemma models_listing_auth_witness :
  validate_api_key sample_config (Some (lit "Bearer s3cret")) = true /\
  list_models sample_config (Some (lit "Basic s3cret")) = unauthorized /\
  ~ check_disabled (load_config []) /\
  (exists data,
      list_models sample_config (Some (lit "BEARER  s3cret")) =
      {| models_body := ModelsList (lit "list") data; models_status := 200 |}).
Proof.
  assert (Hon : ~ check_disabled sample_config).
  { intros [H|H]; vm_compute in H; discriminate. }
  split; [|split; [|split]].
  - destruct (models_listing_auth sample_config (Some (lit "Bearer s3cret")))
      as (_ & _ & H & _).
    apply (H Hon). exists (lit "Bearer s3cret"), (lit "Bearer").
    vm_compute. repeat split.
  - destruct (models_listing_auth sample_config (Some (lit "Basic s3cret")))
      as (_ & _ & _ & H & _).
    apply H. vm_compute. reflexivity.
  - destruct (models_listing_auth sample_config None) as (_ & H & _).
    apply (H []). reflexivity.
  - destruct (models_listing_auth sample_config (Some (lit "BEARER  s3cret")))
      as (_ & _ & _ & _ & H).
    apply H. vm_compute. reflexivity.
Defined.

(** The claim as written fails on both sides: with no [API_KEY] in the
    environment the check is on (a request without header gets 401), and
    with [API_KEY=NONE], which is not the literal "none", it is off. *)
Lemma models_listing_auth_counterexample :
  (dict_get ([] : environ) (lit "API_KEY") = None /\
   list_models (load_config []) None = unauthorized) /\
  (lit "NONE" <> lit "none" /\
   models_status (list_models (load_config [(lit "API_KEY", lit "NONE")]) None) = 200%Z).
Proof.
  split; split.
  - reflexivity.
  - vm_compute. reflexivity.
  - vm_compute. discriminate.
  - vm_compute. reflexivity.
Qed.

(** ** Context collapsing *)

Lemma scan_last_user_skip (skipped rest : list Message) :
  Forall (fun x => is_user x = false) skipped ->
  scan_last_user (skipped ++ rest) = scan_last_user rest.
Proof.
  induction 1 as [|x skipped Hx _ IH]; simpl; [reflexivity|].
  unfold is_user in Hx. now rewrite Hx.
Qed.

Lemma scan_last_user_none (l : list Message) :
  Forall (fun x => is_user x = false) l -> scan_last_user l = PStr [].
Proof.
  intros H. rewrite <- (app_nil_r l). now rewrite scan_last_user_skip.
Qed.

Lemma last_message_snoc (before : list Message) (l : Message) :
  last_message (before ++ [l]) = Ok l.
Proof.
  induction before as [|x before IH]; [reflexivity|].
  simpl. destruct (before ++ [l]) eqn:E; [|exact IH].
  destruct before; discriminate.
Qed.

Lemma last_message_nonempty (messages : list Message) :
  messages <> [] -> exists before l, messages = before ++ [l].
Proof.
  intros H. destruct (exists_last H) as (before & l & E). eauto.
Qed.

(** The input text is the anchor alone, or the transcript, two newlines
    and the anchor behind its label. *)
Lemma full_input_of_shape (messages : list Message) (anchor : pyval) :
  full_input_of messages anchor = anchor \/
  exists transcript,
    full_input_of messages anchor =
    PStr (transcript ++ nl ++ nl ++ lit "Current message: " ++ fmt anchor).
Proof.
  unfold full_input_of. destruct (build_context messages) as [context [|]]; eauto.
Qed.

Lemma full_input_of_nonempty (messages : list Message) (s : str) :
  s <> [] -> exists t, full_input_of messages (PStr s) = PStr t /\ t <> [].
Proof.
  intros Hs. destruct (full_input_of_shape messages (PStr s)) as [E | [tr E]];
    rewrite E; eexists; split; try reflexivity; [exact Hs|].
  intros H. apply app_eq_nil in H. destruct H as [_ H]. discriminate.
Qed.

Lemma select_anchor_last_user (before after : list Message) (m : Message) (s : str) :
  is_user m = true ->
  Forall (fun x => is_user x = false) after ->
  content m = Text s -> s <> [] ->
  select_anchor (before ++ m :: after) = Ok (PStr s, false).
Proof.
  intros Hm Hafter Hc Hs. unfold select_anchor.
  rewrite rev_app_distr. simpl rev. rewrite <- app_assoc.
  rewrite scan_last_user_skip by now apply Forall_rev.
  simpl. unfold is_user in Hm. rewrite Hm, Hc. simpl.
  apply str_truthy_true in Hs. now rewrite Hs.
Qed.

Lemma select_anchor_no_user (before : list Message) (l : Message) :
  Forall (fun x => is_user x = false) (before ++ [l]) ->
  select_anchor (before ++ [l]) = Ok (get_or (content l) (PStr []), true).
Proof.
  intros H. unfold select_anchor.
  rewrite scan_last_user_none by now apply Forall_rev.
  simpl. now rewrite last_message_snoc.
Qed.

Lemma select_anchor_total (messages : list Message) :
  messages <> [] -> exists a, select_anchor messages = Ok a.
Proof.
  intros H. destruct (last_message_nonempty H) as (before & l & ->).
  unfold select_anchor. rewrite last_message_snoc.
  destruct (negb (truthy (scan_last_user (rev (before ++ [l]))))); eauto.
Qed.

(** C1, as the code has it.  For every non-empty message list [collapse]
    returns.  When the last message with role "user" has non-empty text
    content, that content is the anchor, the fallback is not marked and the
    input text is not empty.  When no message has role "user", the anchor
    is the content of the last message of the list (the empty string when
    it has no content key), the fallback is marked, and the input text is
    not empty if that content is non-empty text.  The anchor stands alone
    or behind the transcript, as [full_input_of] builds it. *)
Theorem collapse_anchor (messages : list Message) :
  messages <> [] ->
  exists c,
    collapse messages = Ok c /\
    (forall before m after s,
        messages = before ++ m :: after ->
        is_user m = true ->
        Forall (fun x => is_user x = false) after ->
        content m = Text s -> s <> [] ->
        usedFallback c = false /\
        inputText c = full_input_of messages (PStr s) /\
        exists t, inputText c = PStr t /\ t <> []) /\
    (forall before l,
        messages = before ++ [l] ->
        Forall (fun x => is_user x = false) messages ->
        usedFallback c = true /\
        inputText c = full_input_of messages (get_or (content l) (PStr [])) /\
        forall s, content l = Text s -> s <> [] ->
                  exists t, inputText c = PStr t /\ t <> []).
Proof.
  intros Hne. destruct (select_anchor_total Hne) as [[anchor warned] Ha].
  unfold collapse. rewrite Ha. eexists. split; [reflexivity|]. simpl. split.
  - intros before m after s -> Hm Hafter Hc Hs.
    rewrite (@select_anchor_last_user before after m s Hm Hafter Hc Hs) in Ha.
    injection Ha as <- <-. repeat split.
    now apply full_input_of_nonempty.
  - intros before l -> Hnone.
    rewrite (@select_anchor_no_user before l Hnone) in Ha.
    injection Ha as <- <-. repeat split.
    intros s Hc Hs. rewrite Hc. simpl. now apply full_input_of_nonempty.
Qed.

Lemma collapse_anchor_witness :
  exists c,
    collapse [message_of "user" "first"; message_of "user" "Hi";
              message_of "assistant" "Hello"] = Ok c /\
    usedFallback c = false /\
    exists t, inputText c = PStr t /\ t <> [].
Proof.
  destruct (@collapse_anchor
              [message_of "user" "first"; message_of "user" "Hi";
               message_of "assistant" "Hello"])
    as (c & Hc & Huser & _); [discriminate|].
  exists c. split; [exact Hc|].
  destruct (Huser [message_of "user" "first"] (message_of "user" "Hi")
                  [message_of "assistant" "Hello"] (lit "Hi"))
    as (Hf & _ & Ht).
  - reflexivity.
  - reflexivity.
  - repeat constructor.
  - reflexivity.
  - discriminate.
  - split; assumption.
Defined.

(** The claim as written fails twice: a lone user message with empty
    content gives an empty input text, and a last user message with empty
    content is passed over for the last message of the list. *)
Lemma collapse_anchor_counterexample :
  collapse [message_of "user" ""] =
    Ok {| inputText := PStr []; usedFallback := true |} /\
  collapse [message_of "user" ""; message_of "assistant" "X"] =
    Ok {| inputText :=
            PStr (lit "Previous conversation:" ++ nl ++ lit "User: " ++ nl
                  ++ nl ++ nl ++ lit "Current message: X");
          usedFallback := true |}.
Proof. split; vm_compute; reflexivity. Qed.

(** ** What the handler sends to the backend *)

(** Once the agent resolves and the messages collapse, the handler makes
    exactly one backend invocation, whatever happens afterwards. *)
Lemma chat_completions_invokes (cfg : Config) (sys : System) (request : Request)
    (w : World) (agent : AgentConfig) (c : Collapsed) :
  resolve cfg (requested_model cfg request) = Ok agent ->
  collapse (requested_messages request) = Ok c ->
  invocations (snd (chat_completions cfg sys request w))
  = invocations w ++ [agent_request_of cfg sys request (urandom_calls w) agent c].
Proof.
  unfold requested_model, requested_messages. intros Hr Hc.
  unfold chat_completions, bind, lift. rewrite Hr, Hc.
  cbn beta iota zeta. unfold os_urandom4_hex at 1. cbn beta iota zeta.
  unfold call_invoke_agent. cbn beta iota zeta.
  destruct (invoke_agent sys _) as [events|e]; [|reflexivity].
  unfold os_urandom4_hex, time_now. cbn beta iota zeta.
  destruct (body_stream request); [reflexivity|].
  unfold lift, ret. destruct (aggregate events); reflexivity.
Qed.

(** C4, as the code has it.  For the messages
    [{system,"Be terse"},{user,"Hi"}] the input text is the header line
    "Previous conversation:", the line "System instruction: Be terse", two
    more newlines and "Current message: Hi"; and that text is what a
    request with these messages sends to the backend. *)
Theorem collapse_scenario (cfg : Config) (sys : System) (request : Request) (w : World) :
  let messages := [message_of "system" "Be terse"; message_of "user" "Hi"] in
  let text := lit "Previous conversation:" ++ nl
              ++ lit "System instruction: Be terse" ++ nl
              ++ nl ++ nl ++ lit "Current message: Hi" in
  collapse messages = Ok {| inputText := PStr text; usedFallback := false |} /\
  (body_messages request = Some messages ->
   forall agent,
     resolve cfg (requested_model cfg request) = Ok agent ->
     exists agent_request,
       invocations (snd (chat_completions cfg sys request w))
       = invocations w ++ [agent_request] /\
       request_inputText agent_request = PStr text).
Proof.
  intros messages text.
  assert (Hc : collapse messages
               = Ok {| inputText := PStr text; usedFallback := false |})
    by (vm_compute; reflexivity).
  split; [exact Hc|].
  intros Hm agent Hr. eexists. split.
  - apply chat_completions_invokes; [exact Hr|].
    unfold requested_messages. rewrite Hm. exact Hc.
  - reflexivity.
Qed.

Lemma collapse_scenario_witness :
  exists agent_request,
    invocations (snd (chat_completions sample_config sample_system
                        scenario_request initial_world))
    = [agent_request] /\
    request_inputText agent_request =
    PStr (lit "Previous conversation:" ++ nl
          ++ lit "System instruction: Be terse" ++ nl
          ++ nl ++ nl ++ lit "Current message: Hi").
Proof.
  destruct (collapse_scenario sample_config sample_system scenario_request
              initial_world) as [_ H].
  apply (H eq_refl {| agent_id := lit "AG1"; alias_id := lit "AL1" |}).
  vm_compute. reflexivity.
Defined.

(** The text of the claim lacks the header line the code puts first. *)
Lemma collapse_scenario_counterexample :
  exists c,
    collapse [message_of "system" "Be terse"; message_of "user" "Hi"] = Ok c /\
    inputText c <>
    PStr (lit "System instruction: Be terse" ++ nl ++ nl ++ nl
          ++ lit "Current message: Hi").
Proof.
  eexists. split; [vm_compute; reflexivity|].
  vm_compute. discriminate.
Qed.

(** ** Failures of a request *)

(** C5, on the code.  A request whose message list is empty or missing
    makes [chat_completions] raise: [IndexError] from [messages[-1]] when
    the agent resolves, and nothing in the view catches it.  No request-level
    error is returned, and the backend is not reached. *)
Theorem empty_conversation_raises (cfg : Config) (sys : System)
    (auth model session : option str) (stream : bool) (w : World) :
  let request messages :=
    {| authorization := auth; body_messages := messages; body_model := model;
       body_stream := stream; body_session_id := session |} in
  let outcome :=
    match resolve cfg (requested_model cfg (request None)) with
    | Ok _ => Raise IndexError
    | Raise e => Raise e
    end in
  chat_completions cfg sys (request (Some [])) w = (outcome, w) /\
  chat_completions cfg sys (request None) w = (outcome, w).
Proof.
  intros request outcome. subst request outcome.
  unfold chat_completions, requested_model, bind, lift. simpl.
  destruct (resolve cfg _); split; reflexivity.
Qed.

(** The failing request, evaluated. *)
Example empty_conversation_run :
  chat_completions sample_config sample_system
    {| authorization := Some (lit "Bearer s3cret");
       body_messages := Some [];
       body_model := Some (lit "MY-BOT");
       body_stream := false;
       body_session_id := None |} initial_world
  = (Raise IndexError, initial_world).
Proof. vm_compute. reflexivity. Qed.

(** A last message without content, and no user message: nothing is
    rejected either, the backend is invoked with an empty input text. *)
Example empty_anchor_run :
  invocations
    (snd (chat_completions sample_config sample_system
            {| authorization := None;
               body_messages := Some [ {| role := Text (lit "assistant");
                                          content := Absent |} ];
               body_model := Some (lit "MY-BOT");
               body_stream := false;
               body_session_id := Some (lit "s1") |} initial_world))
  = [ {| agentId := lit "AG1"; agentAliasId := lit "AL1";
         sessionId := lit "s1"; request_inputText := PStr [];
         enableTrace := false |} ].
Proof. vm_compute. reflexivity. Qed.

(** ** Agent resolution *)

Lemma resolve_registered (cfg : Config) (model_id : str) (c : AgentConfig) :
  dict_get (AGENTS cfg) model_id = Some c -> resolve cfg model_id = Ok c.
Proof. intros H. unfold resolve. now rewrite H. Qed.

Lemma chat_completions_unresolved (cfg : Config) (sys : System)
    (request : Request) (w : World) (e : exn) :
  resolve cfg (requested_model cfg request) = Raise e ->
  chat_completions cfg sys request w = (Raise e, w).
Proof.
  unfold requested_model. intros H.
  unfold chat_completions, bind, lift. now rewrite H.
Qed.

(** C6.  A model identifier that is not in the registry resolves to what
    the default identifier resolves to.  If the default is not registered
    either, resolution raises [TypeError]: the request that needed it ends
    with that exception, leaving the world as it was, while identifiers
    that are registered still resolve to their own entries. *)
Theorem resolve_unregistered (cfg : Config) (model_id : str) :
  dict_get (AGENTS cfg) model_id = None ->
  resolve cfg model_id = resolve cfg (DEFAULT_AGENT cfg) /\
  (dict_get (AGENTS cfg) (DEFAULT_AGENT cfg) = None ->
   resolve cfg model_id = Raise TypeError /\
   (forall sys request w,
       body_model request = Some model_id ->
       chat_completions cfg sys request w = (Raise TypeError, w)) /\
   (forall other c,
       dict_get (AGENTS cfg) other = Some c -> resolve cfg other = Ok c)).
Proof.
  intros Hmiss.
  assert (Hres : resolve cfg model_id = resolve cfg (DEFAULT_AGENT cfg)).
  { unfold resolve. rewrite Hmiss.
    destruct (dict_get (AGENTS cfg) (DEFAULT_AGENT cfg)); reflexivity. }
  split; [exact Hres|].
  intros Hdef.
  assert (Hfail : resolve cfg model_id = Raise TypeError).
  { unfold resolve. now rewrite Hmiss, Hdef. }
  split; [exact Hfail|]. split.
  - intros sys request w Hmodel. apply chat_completions_unresolved.
    unfold requested_model. now rewrite Hmodel.
  - intros other c. apply resolve_registered.
Qed.

Lemma resolve_unregistered_witness :
  resolve sample_config (lit "unknown-model")
  = Ok {| agent_id := lit "AG1"; alias_id := lit "AL1" |} /\
  resolve (load_config [(lit "AGENT_X_ID", lit "a"); (lit "AGENT_X_ALIAS_ID", lit "b")])
          (lit "unknown-model") = Raise TypeError.
Proof.
  split.
  - destruct (@resolve_unregistered sample_config (lit "unknown-model")) as [H _].
    + vm_compute. reflexivity.
    + rewrite H. vm_compute. reflexivity.
  - destruct (@resolve_unregistered
                (load_config [(lit "AGENT_X_ID", lit "a");
                              (lit "AGENT_X_ALIAS_ID", lit "b")])
                (lit "unknown-model")) as [_ H].
    + vm_compute. reflexivity.
    + apply H. vm_compute. reflexivity.
Defined.

(** ** Response relay *)

Section RelayFacts.
Variables (response_id : str) (created_time : Z) (model_id : str).

Lemma stream_loop_decodable (events : list Event) :
  forallb decodable events = true ->
  stream_loop response_id created_time model_id events
  = (List.map (content_item response_id created_time model_id) (filter str_truthy (fragments events)), None).
Proof.
  induction events as [|[b|] events IH]; simpl; intros H.
  - reflexivity.
  - apply andb_true_iff in H. destruct H as [Hb H].
    destruct (utf8_decode b) as [s|]; [|discriminate].
    rewrite (IH H). simpl. destruct (str_truthy s); reflexivity.
  - now apply IH.
Qed.

(** A fragment that does not decode ends the generator with the
    exception, after the frames of the fragments before it. *)
Lemma stream_loop_decode_error (good bad : list Event) (b : bytes) :
  forallb decodable good = true ->
  utf8_decode b = None ->
  stream_loop response_id created_time model_id (good ++ ChunkEvent b :: bad)
  = (List.map (content_item response_id created_time model_id) (filter str_truthy (fragments good)),
     Some UnicodeDecodeError).
Proof.
  intros Hgood Hb. induction good as [|[g|] good IH]; simpl in *.
  - now rewrite Hb.
  - apply andb_true_iff in Hgood. destruct Hgood as [Hg Hgood].
    destruct (utf8_decode g) as [s|]; [|discriminate].
    rewrite (IH Hgood). simpl. destruct (str_truthy s); reflexivity.
  - now apply IH.
Qed.

Lemma stream_loop_frames (events : list Event) (chunk : Chunk) :
  In (Data chunk) (fst (stream_loop response_id created_time model_id events)) ->
  chunk_id chunk = response_id /\
  chunk_created chunk = created_time /\
  chunk_model chunk = model_id.
Proof.
  induction events as [|[b|] events IH]; simpl.
  - contradiction.
  - destruct (utf8_decode b) as [s|]; [|contradiction].
    destruct (stream_loop response_id created_time model_id events) as [items e].
    simpl in *. destruct (str_truthy s); [|exact IH].
    intros [H|H]; [|now apply IH].
    injection H as <-. repeat split.
  - exact IH.
Qed.

Lemma generate_stream_frames (events : list Event) (chunk : Chunk) :
  In (Data chunk)
     (yielded (generate_stream response_id created_time model_id events)) ->
  chunk_id chunk = response_id /\
  chunk_created chunk = created_time /\
  chunk_model chunk = model_id.
Proof.
  unfold generate_stream.
  pose proof (stream_loop_frames events chunk) as Hloop.
  destruct (stream_loop response_id created_time model_id events) as [items e].
  simpl in Hloop.
  destruct e as [err|]; simpl; intros [H|H].
  - injection H as <-. repeat split.
  - now apply Hloop.
  - injection H as <-. repeat split.
  - apply in_app_or in H. destruct H as [H|[H|[H|[]]]].
    + now apply Hloop.
    + injection H as <-. repeat split.
    + discriminate.
Qed.

Lemma delta_contents_content_items (l : list str) :
  delta_contents (List.map (content_item response_id created_time model_id) l) = l.
Proof. induction l as [|s l IH]; simpl; [reflexivity | now rewrite IH]. Qed.
End RelayFacts.

Lemma concat_filter_truthy (l : list str) :
  List.concat (filter str_truthy l) = List.concat l.
Proof.
  induction l as [|s l IH]; simpl; [reflexivity|].
  destruct s; simpl; [exact IH | now rewrite IH].
Qed.

Lemma aggregate_from_decodable (events : list Event) (completion : str) :
  forallb decodable events = true ->
  aggregate_from completion events = Ok (completion ++ List.concat (fragments events)).
Proof.
  revert completion. induction events as [|[b|] events IH]; simpl; intros acc H.
  - now rewrite app_nil_r.
  - apply andb_true_iff in H. destruct H as [Hb H].
    destruct (utf8_decode b) as [s|]; [|discriminate].
    rewrite (IH _ H). simpl. now rewrite <- app_assoc.
  - now apply IH.
Qed.

(** C2.  For every sequence of backend events whose fragments decode, the
    generator runs to its end and yields exactly: one role-announcement
    frame (delta [{"role": "assistant"}], no finish reason), then one
    content frame for each non-empty decoded fragment in backend order
    (delta [{"content": fragment}], no finish reason; empty fragments and
    other events yield nothing), then one frame with empty delta and
    finish reason "stop", then the [DONE] marker; this holds for any number
    of fragments, zero included.  Every frame is a "chat.completion.chunk"
    with the response id, the created time, the model and one choice of
    index 0.  The three kinds of frame differ, and the marker is the
    literal line ["data: [DONE]"], not a frame. *)
Theorem streaming_sequence (response_id : str) (created_time : Z) (model_id : str)
    (events : list Event) :
  forallb decodable events = true ->
  let chunk (delta : Delta) (finish_reason : option str) : Chunk :=
    {| chunk_id := response_id;
       chunk_object := lit "chat.completion.chunk";
       chunk_created := created_time;
       chunk_model := model_id;
       chunk_choices := [ {| choice_index := 0;
                             choice_delta := delta;
                             choice_finish_reason := finish_reason |} ] |} in
  let role_announcement :=
    chunk {| delta_role := Some (lit "assistant"); delta_content := None |} None in
  let content_of (fragment : str) :=
    chunk {| delta_role := None; delta_content := Some fragment |} None in
  let finish :=
    chunk {| delta_role := None; delta_content := None |} (Some (lit "stop")) in
  generate_stream response_id created_time model_id events
  = {| yielded :=
         Data role_announcement
         :: List.map (fun fragment => Data (content_of fragment))
                     (filter str_truthy (fragments events))
         ++ [Data finish; DoneMarker];
       ending := None |}
  /\ (forall fragment,
         content_of fragment <> role_announcement /\ content_of fragment <> finish)
  /\ role_announcement <> finish
  /\ (forall json_dumps,
         sse_text json_dumps DoneMarker = lit "data: [DONE]" ++ nl ++ nl).
Proof.
  intros H chunk role_announcement content_of finish.
  subst chunk role_announcement content_of finish.
  split; [|split; [|split]].
  - unfold generate_stream. rewrite stream_loop_decodable by exact H.
    reflexivity.
  - intros fragment. split; discriminate.
  - discriminate.
  - reflexivity.
Qed.

Lemma streaming_sequence_witness :
  let chunk (delta : Delta) (finish_reason : option str) : Chunk :=
    {| chunk_id := lit "chatcmpl-1";
       chunk_object := lit "chat.completion.chunk";
       chunk_created := 7;
       chunk_model := lit "MY-BOT";
       chunk_choices := [ {| choice_index := 0;
                             choice_delta := delta;
                             choice_finish_reason := finish_reason |} ] |} in
  generate_stream (lit "chatcmpl-1") 7 (lit "MY-BOT") sample_events
  = {| yielded :=
         [Data (chunk {| delta_role := Some (lit "assistant");
                         delta_content := None |} None);
          Data (chunk {| delta_role := None;
                         delta_content := Some (lit "Hel") |} None);
          Data (chunk {| delta_role := None;
                         delta_content := Some (lit "lo") |} None);
          Data (chunk {| delta_role := None; delta_content := None |}
                      (Some (lit "stop")));
          DoneMarker];
       ending := None |}
  /\ generate_stream (lit "chatcmpl-1") 7 (lit "MY-BOT") []
     = {| yielded :=
            [Data (chunk {| delta_role := Some (lit "assistant");
                            delta_content := None |} None);
             Data (chunk {| delta_role := None; delta_content := None |}
                         (Some (lit "stop")));
             DoneMarker];
          ending := None |}.
Proof.
  intros chunk. subst chunk. split.
  - destruct (@streaming_sequence (lit "chatcmpl-1") 7 (lit "MY-BOT") sample_events)
      as [H _]; [reflexivity|].
    rewrite H. reflexivity.
  - destruct (@streaming_sequence (lit "chatcmpl-1") 7 (lit "MY-BOT") [])
      as [H _]; [reflexivity|].
    rewrite H. reflexivity.
Defined.

(** C3.  For every sequence of backend events whose fragments decode,
    aggregate mode returns a content, and it is the concatenation of the
    content fields of the frames streaming mode yields for the same
    events. *)
Theorem cross_mode_consistency (response_id : str) (created_time : Z)
    (model_id : str) (events : list Event) :
  forallb decodable events = true ->
  aggregate events
  = Ok (List.concat (delta_contents
                  (yielded (generate_stream response_id created_time model_id events)))).
Proof.
  intros H. unfold aggregate. rewrite aggregate_from_decodable by exact H.
  unfold generate_stream. rewrite stream_loop_decodable by exact H.
  simpl. unfold delta_contents at 1. rewrite flat_map_app. simpl.
  rewrite app_nil_r.
  change (flat_map _ (List.map ?f ?l)) with (delta_contents (List.map f l)).
  rewrite delta_contents_content_items.
  now rewrite concat_filter_truthy.
Qed.

Lemma cross_mode_consistency_witness :
  aggregate sample_events = Ok (lit "Hello") /\
  List.concat (delta_contents
                 (yielded (generate_stream (lit "chatcmpl-1") 7 (lit "MY-BOT")
                             sample_events)))
  = lit "Hello".
Proof.
  pose proof (@cross_mode_consistency (lit "chatcmpl-1") 7 (lit "MY-BOT")
                sample_events eq_refl) as H.
  split.
  - rewrite H. vm_compute. reflexivity.
  - vm_compute. reflexivity.
Defined.

(** Outside the typed fragments: bytes that are not UTF-8 make both modes
    raise; the stream has by then yielded the role frame and the frames of
    the fragments before, and neither the finish frame nor the marker. *)
Lemma relay_decode_error (response_id : str) (created_time : Z) (model_id : str)
    (good bad : list Event) (b : bytes) :
  forallb decodable good = true ->
  utf8_decode b = None ->
  aggregate (good ++ ChunkEvent b :: bad) = Raise UnicodeDecodeError /\
  generate_stream response_id created_time model_id (good ++ ChunkEvent b :: bad)
  = {| yielded :=
         Data (role_frame response_id created_time model_id)
         :: List.map (fun s => Data (content_frame response_id created_time model_id s))
                     (filter str_truthy (fragments good));
       ending := Some UnicodeDecodeError |}.
Proof.
  intros Hgood Hb. split.
  - unfold aggregate. generalize (@nil char).
    induction good as [|[g|] good IH]; simpl in *; intros acc.
    + now rewrite Hb.
    + apply andb_true_iff in Hgood. destruct Hgood as [Hg Hgood].
      destruct (utf8_decode g); [now apply IH | discriminate].
    + now apply IH.
  - unfold generate_stream.
    now rewrite stream_loop_decode_error.
Qed.

(** ** One identity per request *)

(** A streaming answer of the handler: its body is the generator run with
    one response id, one timestamp and the requested model, all fixed
    before the run; randomness was read twice (session id, response id)
    and the clock once. *)
Lemma chat_completions_stream_inv (cfg : Config) (sys : System)
    (request : Request) (w w' : World) mimetype headers (body : Stream) :
  chat_completions cfg sys request w
  = (Ok (StreamResponse mimetype headers body), w') ->
  exists events,
    body = generate_stream
             (lit "chatcmpl-" ++ requested_model cfg request ++ lit "-"
              ++ urandom4_hex sys (S (urandom_calls w)))
             (int_time sys (time_calls w))
             (requested_model cfg request)
             events /\
    urandom_calls w' = S (S (urandom_calls w)) /\
    time_calls w' = S (time_calls w).
Proof.
  unfold chat_completions, requested_model, bind, lift.
  destruct (resolve cfg _) as [agent|e]; [|discriminate].
  destruct (collapse _) as [c|e]; [|discriminate].
  unfold os_urandom4_hex at 1. cbn beta iota zeta.
  unfold call_invoke_agent. cbn beta iota zeta.
  destruct (invoke_agent sys _) as [events|e]; [|discriminate].
  unfold os_urandom4_hex, time_now. cbn beta iota zeta.
  destruct (body_stream request).
  - unfold ret. intros H. injection H as _ _ <- <-.
    exists events. simpl. repeat split.
  - unfold lift, ret. destruct (aggregate events); discriminate.
Qed.

(** C7.  In a streaming answer every frame (role, content and finish
    frames alike) carries the same id, the same created time and the same
    model.  The id is built from the one random draw made for it and the
    created time is the one clock reading of the request, both taken
    before the generator yields anything. *)
Theorem stream_frames_share_identity (cfg : Config) (sys : System)
    (request : Request) (w w' : World) mimetype headers (body : Stream) :
  chat_completions cfg sys request w
  = (Ok (StreamResponse mimetype headers body), w') ->
  let response_id := lit "chatcmpl-" ++ requested_model cfg request ++ lit "-"
                     ++ urandom4_hex sys (S (urandom_calls w)) in
  let created_time := int_time sys (time_calls w) in
  (forall chunk,
      In (Data chunk) (yielded body) ->
      chunk_id chunk = response_id /\
      chunk_created chunk = created_time /\
      chunk_model chunk = requested_model cfg request) /\
  time_calls w' = S (time_calls w) /\
  urandom_calls w' = S (S (urandom_calls w)).
Proof.
  intros H response_id created_time.
  destruct (chat_completions_stream_inv _ _ _ _ H) as (events & -> & Hu & Ht).
  split; [|split; assumption].
  intros chunk Hin. now apply generate_stream_frames with (events := events).
Qed.

Lemma stream_frames_share_identity_witness :
  Forall (fun item =>
            match item with
            | Data chunk =>
                chunk_id chunk = lit "chatcmpl-MY-BOT-00c0ffe1" /\
                chunk_created chunk = 1700000000%Z /\
                chunk_model chunk = lit "MY-BOT"
            | DoneMarker => True
            end)
         (yielded (generate_stream (lit "chatcmpl-MY-BOT-00c0ffe1") 1700000000
                     (lit "MY-BOT") sample_events)).
Proof.
  destruct (@stream_frames_share_identity sample_config sample_system
              scenario_request initial_world
              {| urandom_calls := 2; time_calls := 1;
                 invocations :=
                   [agent_request_of sample_config sample_system scenario_request 0
                      {| agent_id := lit "AG1"; alias_id := lit "AL1" |}
                      {| inputText :=
                           PStr (lit "Previous conversation:" ++ nl
                                 ++ lit "System instruction: Be terse" ++ nl
                                 ++ nl ++ nl ++ lit "Current message: Hi");
                         usedFallback := false |}] |}
              (lit "text/event-stream") stream_headers
              (generate_stream (lit "chatcmpl-MY-BOT-00c0ffe1") 1700000000
                 (lit "MY-BOT") sample_events))
    as [H _].
  - vm_compute. reflexivity.
  - apply Forall_forall. intros [chunk|] Hin; [exact (H chunk Hin) | exact I].
Defined.

(** ** The chat endpoint and the Authorization header *)

(** C10.  [chat_completions] never consults the Authorization header: two
    requests that differ in it only end in the same result and the same
    world, backend invocations included.  So a header that the models
    listing turns away with 401 still reaches the backend through the chat
    endpoint. *)
Theorem chat_completions_ignores_authorization (cfg : Config) (sys : System)
    (request : Request) (h1 h2 : option str) (w : World) :
  chat_completions cfg sys (with_authorization request h1) w
  = chat_completions cfg sys (with_authorization request h2) w /\
  (validate_api_key cfg h1 = false ->
   forall agent c,
     resolve cfg (requested_model cfg request) = Ok agent ->
     collapse (requested_messages request) = Ok c ->
     list_models cfg h1 = unauthorized /\
     invocations (snd (chat_completions cfg sys (with_authorization request h1) w))
     = invocations w
       ++ [agent_request_of cfg sys request (urandom_calls w) agent c]).
Proof.
  split; [reflexivity|].
  intros Hv agent c Hr Hc. split.
  - unfold list_models. now rewrite Hv.
  - now rewrite (@chat_completions_invokes cfg sys (with_authorization request h1)
                   w agent c Hr Hc).
Qed.

Lemma chat_completions_ignores_authorization_witness :
  list_models sample_config None = unauthorized /\
  exists agent_request,
    invocations (snd (chat_completions sample_config sample_system
                        (with_authorization scenario_request None) initial_world))
    = [agent_request].
Proof.
  destruct (@chat_completions_ignores_authorization sample_config sample_system
              scenario_request None (Some (lit "Bearer s3cret")) initial_world)
    as [_ H].
  destruct (H eq_refl {| agent_id := lit "AG1"; alias_id := lit "AL1" |}
              {| inputText :=
                   PStr (lit "Previous conversation:" ++ nl
                         ++ lit "System instruction: Be terse" ++ nl
                         ++ nl ++ nl ++ lit "Current message: Hi");
                 usedFallback := false |})
    as [H401 Hinv].
  - vm_compute. reflexivity.
  - vm_compute. reflexivity.
  - split; [exact H401|]. eexists. exact Hinv.
Defined.

(** * Further properties *)

Unset Implicit Arguments.

(** ** The agent pattern *)

Lemma strip_prefix_spec (p s r : str) : strip_prefix p s = Some r <-> s = p ++ r.
Proof.
  revert s. induction p as [|x p IH]; intros s; simpl.
  - split; congruence.
  - destruct s as [|y s]; [split; discriminate|].
    unfold char_eqb. destruct (N.eqb_spec x y) as [->|Hne].
    + rewrite IH. split; congruence.
    + split; [discriminate | congruence].
Qed.

Lemma group_from_sound (s : str) :
  forall seen g,
    group_from seen s = Some g ->
    forallb in_class g = true /\
    (exists rest, s = g ++ lit "_ID" ++ rest) /\
    (seen = false -> g <> []).
Proof.
  induction s as [|c s IH]; intros seen g; simpl; [discriminate|].
  destruct (in_class c) eqn:Hc; [|discriminate].
  destruct (group_from true s) as [g'|] eqn:Hg.
  - intros H. injection H as <-.
    destruct (IH true g' Hg) as (Hall & [rest ->] & _).
    simpl. rewrite Hc, Hall. repeat split.
    + now exists rest.
    + discriminate.
  - destruct seen; simpl; [|discriminate].
    unfold starts_with.
    destruct (strip_prefix (lit "_ID") (c :: s)) as [rest|] eqn:Hp; [|discriminate].
    intros H. injection H as <-. apply strip_prefix_spec in Hp.
    repeat split; [now exists rest | discriminate].
Qed.

Lemma group_from_complete (g' rest : str) :
  forallb in_class g' = true ->
  forall seen,
    seen = true \/ g' <> [] ->
    exists g,
      group_from seen (g' ++ lit "_ID" ++ rest) = Some g /\
      List.length g' <= List.length g.
Proof.
  induction g' as [|c g' IH]; intros Hall seen Hseen.
  - destruct Hseen as [-> | H]; [|contradiction].
    change ([] ++ lit "_ID" ++ rest) with (underscore :: lit "ID" ++ rest).
    cbn [group_from]. change (in_class underscore) with true. cbn iota.
    destruct (group_from true (lit "ID" ++ rest)) as [g|].
    + exists (underscore :: g). split; [reflexivity | simpl; lia].
    + exists []. split; [reflexivity | simpl; lia].
  - simpl in Hall. apply andb_true_iff in Hall. destruct Hall as [Hc Hall].
    destruct (IH Hall true (or_introl eq_refl)) as (g & Hg & Hlen).
    exists (c :: g). simpl. rewrite Hc.
    change (g' ++ 95%N :: 73%N :: 68%N :: rest) with (g' ++ lit "_ID" ++ rest).
    rewrite Hg. split; [reflexivity | simpl; lia].
Qed.

Lemma group_from_exact (g : str) :
  forallb in_class g = true ->
  group_from true (g ++ lit "_ID") = Some g.
Proof.
  induction g as [|c g IH]; intros Hall; [reflexivity|].
  simpl in Hall. apply andb_true_iff in Hall. destruct Hall as [Hc Hall].
  simpl. rewrite Hc.
  change (g ++ [95%N; 73%N; 68%N]) with (g ++ lit "_ID").
  now rewrite (IH Hall).
Qed.

(** X1.  The pattern finds the longest group: when [agent_pattern.match]
    succeeds, its group is non-empty, holds only capitals, digits and
    underscores, the key reads AGENT_, the group, _ID and possibly more,
    and no longer group fits; when it fails, no group fits at all. *)
Theorem agent_pattern_longest_group (key : str) :
  match agent_pattern_match key with
  | Some g =>
      g <> [] /\ forallb in_class g = true /\
      (exists rest, key = lit "AGENT_" ++ g ++ lit "_ID" ++ rest) /\
      (forall g' rest',
          g' <> [] -> forallb in_class g' = true ->
          key = lit "AGENT_" ++ g' ++ lit "_ID" ++ rest' ->
          List.length g' <= List.length g)
  | None =>
      forall g' rest',
        g' <> [] -> forallb in_class g' = true ->
        key <> lit "AGENT_" ++ g' ++ lit "_ID" ++ rest'
  end.
Proof.
  unfold agent_pattern_match.
  destruct (strip_prefix (lit "AGENT_") key) as [s|] eqn:Hp.
  - apply strip_prefix_spec in Hp. subst key.
    destruct (group_from false s) as [g|] eqn:Hg.
    + destruct (group_from_sound s false g Hg) as (Hall & [rest ->] & Hne).
      repeat split; [now apply Hne | exact Hall | now exists rest |].
      intros g' rest' Hne' Hall' E. apply app_inv_head in E.
      destruct (@group_from_complete g' rest' Hall' false (or_intror Hne'))
        as (g2 & Hg2 & Hlen).
      rewrite <- E, Hg in Hg2. injection Hg2 as <-. exact Hlen.
    + intros g' rest' Hne' Hall' E. apply app_inv_head in E.
      destruct (@group_from_complete g' rest' Hall' false (or_intror Hne'))
        as (g2 & Hg2 & _).
      rewrite <- E, Hg in Hg2. discriminate.
  - intros g' rest' _ _ E.
    assert (Hs : strip_prefix (lit "AGENT_") key = Some (g' ++ lit "_ID" ++ rest'))
      by now apply strip_prefix_spec.
    rewrite Hs in Hp. discriminate.
Qed.

Lemma agent_pattern_match_exact (g : str) :
  g <> [] -> forallb in_class g = true ->
  agent_pattern_match (lit "AGENT_" ++ g ++ lit "_ID") = Some g.
Proof.
  intros Hne Hall. unfold agent_pattern_match.
  assert (Hp : strip_prefix (lit "AGENT_") (lit "AGENT_" ++ g ++ lit "_ID")
               = Some (g ++ lit "_ID")) by now apply strip_prefix_spec.
  rewrite Hp. destruct g as [|c g]; [contradiction|].
  simpl in Hall. apply andb_true_iff in Hall. destruct Hall as [Hc Hall].
  simpl. rewrite Hc.
  change (g ++ [95%N; 73%N; 68%N]) with (g ++ lit "_ID").
  now rewrite (@group_from_exact g Hall).
Qed.

(** X2.  The variable named AGENT_, a non-empty group of capitals, digits
    and underscores, then _ID matches the pattern with exactly that
    group. *)
Theorem agent_pattern_canonical (g : str) :
  g <> [] -> forallb in_class g = true ->
  agent_pattern_match (lit "AGENT_" ++ g ++ lit "_ID") = Some g.
Proof. apply agent_pattern_match_exact. Qed.

Lemma agent_pattern_canonical_witness :
  agent_pattern_match (lit "AGENT_" ++ lit "MY_BOT_2" ++ lit "_ID")
  = Some (lit "MY_BOT_2").
Proof.
  apply agent_pattern_canonical; [discriminate | reflexivity].
Defined.

(** ** Names in the registry and in the models listing *)

Lemma replace_underscores_name (g : str) :
  forallb in_class g = true ->
  forallb is_name_char (replace_underscores g) = true.
Proof.
  induction g as [|c g IH]; simpl; [reflexivity|].
  intros H. apply andb_true_iff in H. destruct H as [Hc H].
  rewrite (IH H), andb_true_r.
  unfold in_class in Hc. unfold is_name_char.
  destruct (char_eqb c underscore) eqn:E.
  - reflexivity.
  - rewrite orb_false_r in Hc.
    apply orb_true_iff in Hc. destruct Hc as [-> | ->]; simpl;
      [reflexivity | now rewrite orb_true_r].
Qed.

Lemma build_agents_sound (env : environ) : sound_registry env (build_agents env).
Proof.
  apply fold_load_agent_sound; [apply incl_refl | intros name c H; discriminate].
Qed.

Lemma registered_name_shape (env : environ) (name : str) (c : AgentConfig) :
  dict_get (build_agents env) name = Some c ->
  name <> [] /\ forallb is_name_char name = true.
Proof.
  intros H. destruct (@build_agents_sound env name c H) as (key & g & _ & Hm & -> & _).
  unfold agent_pattern_match in Hm.
  destruct (strip_prefix (lit "AGENT_") key) as [s|]; [|discriminate].
  destruct (@group_from_sound s false g Hm) as (Hall & _ & Hne).
  split.
  - specialize (Hne eq_refl). destruct g; [contradiction | discriminate].
  - now apply replace_underscores_name.
Qed.

(** X3.  Every registered model identifier is non-empty and made of
    capitals, digits and hyphens only.  So a requested identifier with any
    other character (a lower-case letter, an underscore), or the empty
    one, is never found and resolves as the default does. *)
Theorem registered_names_alphabet (env : environ) :
  (forall name c,
      dict_get (build_agents env) name = Some c ->
      name <> [] /\ forallb is_name_char name = true) /\
  (forall model_id,
      model_id = [] \/ forallb is_name_char model_id = false ->
      resolve (load_config env) model_id
      = resolve (load_config env) (DEFAULT_AGENT (load_config env))).
Proof.
  split; [intros name c; apply registered_name_shape|].
  intros model_id Hbad. unfold resolve.
  change (AGENTS (load_config env)) with (build_agents env).
  destruct (dict_get (build_agents env) model_id) as [c|] eqn:Hget.
  - destruct (registered_name_shape _ _ _ Hget) as [Hne Hall].
    destruct Hbad as [-> | Hbad]; [contradiction | congruence].
  - destruct (dict_get (build_agents env)
                (DEFAULT_AGENT (load_config env))); reflexivity.
Qed.

Lemma registered_names_alphabet_witness :
  resolve sample_config (lit "my-bot")
  = Ok {| agent_id := lit "AG1"; alias_id := lit "AL1" |} /\
  forallb is_name_char (lit "MY-BOT") = true.
Proof.
  destruct (registered_names_alphabet sample_environ) as [Hshape Hdefault].
  split.
  - unfold sample_config. rewrite Hdefault; [vm_compute; reflexivity|].
    right. vm_compute. reflexivity.
  - apply (Hshape (lit "MY-BOT") {| agent_id := lit "AG1"; alias_id := lit "AL1" |}).
    vm_compute. reflexivity.
Defined.

Lemma dict_set_keys {V} (d : dict V) (k : str) (v : V) (x : str) :
  In x (List.map fst (dict_set d k v)) <-> x = k \/ In x (List.map fst d).
Proof.
  induction d as [|[k' v'] d IH]; simpl.
  - split; intros [H|H]; auto.
  - destruct (str_eqb k' k) eqn:E; simpl.
    + apply str_eqb_eq in E. subst k'. split; intros H; tauto || (destruct H; auto).
    + rewrite IH. split; intros H; tauto || (destruct H as [H|[H|H]]; auto).
Qed.

Lemma dict_set_nodup {V} (d : dict V) (k : str) (v : V) :
  NoDup (List.map fst d) -> NoDup (List.map fst (dict_set d k v)).
Proof.
  induction d as [|[k' v'] d IH]; simpl; intros H.
  - constructor; [intros [] | constructor].
  - inversion H as [|? ? Hnotin Hnd]; subst.
    destruct (str_eqb k' k) eqn:E; simpl.
    + apply str_eqb_eq in E. subst k'. now constructor.
    + apply str_eqb_neq in E. constructor; [|now apply IH].
      rewrite dict_set_keys. intros [Hk|Hin]; [congruence | contradiction].
Qed.

Lemma dict_get_keys {V} (d : dict V) (k : str) :
  In k (List.map fst d) <-> exists v, dict_get d k = Some v.
Proof.
  induction d as [|[k' v'] d IH]; simpl.
  - split; [intros [] | intros [v H]; discriminate].
  - destruct (str_eqb k' k) eqn:E.
    + apply str_eqb_eq in E. split; eauto.
    + apply str_eqb_neq in E. rewrite <- IH. split; [intros [H|H] | ]; tauto.
Qed.

Lemma build_agents_nodup (env : environ) : NoDup (List.map fst (build_agents env)).
Proof.
  unfold build_agents.
  assert (H : NoDup (List.map fst (@nil (str * AgentConfig)))) by constructor.
  revert H. generalize (@nil (str * AgentConfig)).
  generalize env at 2. intros entries.
  induction entries as [|[key value] entries IH]; intros agents H; [exact H|].
  simpl. apply IH. unfold load_agent.
  destruct (agent_pattern_match key) as [g|]; [|exact H].
  destruct (dict_get env (alias_key_of g)) as [alias|]; [|exact H].
  destruct (str_truthy alias); [|exact H].
  now apply dict_set_nodup.
Qed.

(** X4.  A models listing that passes the check has status 200 and names
    every registered agent once, in registration order: an identifier is
    listed exactly when the registry has an entry for it, that is, when
    the chat endpoint resolves it without falling back to the default. *)
Theorem models_listing_ids (env : environ) (auth_header : option str) :
  validate_api_key (load_config env) auth_header = true ->
  models_status (list_models (load_config env) auth_header) = 200%Z /\
  listed_ids (list_models (load_config env) auth_header)
  = List.map fst (build_agents env) /\
  NoDup (listed_ids (list_models (load_config env) auth_header)) /\
  (forall id,
      In id (listed_ids (list_models (load_config env) auth_header))
      <-> exists c, dict_get (build_agents env) id = Some c).
Proof.
  intros Hv.
  assert (Hids : listed_ids (list_models (load_config env) auth_header)
                 = List.map fst (build_agents env)).
  { unfold list_models, listed_ids. rewrite Hv. simpl.
    rewrite map_map. reflexivity. }
  split; [unfold list_models; now rewrite Hv|].
  split; [exact Hids|]. rewrite Hids. split.
  - apply build_agents_nodup.
  - intros id. apply dict_get_keys.
Qed.

Lemma models_listing_ids_witness :
  listed_ids (list_models sample_config (Some (lit "Bearer s3cret")))
  = [lit "MY-BOT"].
Proof.
  destruct (@models_listing_ids sample_environ (Some (lit "Bearer s3cret")))
    as (_ & H & _).
  - vm_compute. reflexivity.
  - unfold sample_config. rewrite H. vm_compute. reflexivity.
Defined.

(** ** Splitting the Authorization header *)

Lemma no_space_rev (s : str) : no_space s = true -> no_space (rev s) = true.
Proof.
  unfold no_space. rewrite !forallb_forall. intros H c Hc.
  apply H. now apply in_rev.
Qed.

Lemma split_from_parts (s : str) :
  forall cur,
    no_space cur = true ->
    Forall (fun p => p <> [] /\ no_space p = true) (split_from cur s).
Proof.
  induction s as [|c s IH]; intros cur Hcur; simpl.
  - destruct cur as [|x cur]; constructor; [|constructor].
    split; [|now apply no_space_rev].
    intros E. apply (f_equal (@List.length char)) in E.
    rewrite length_rev in E. discriminate.
  - destruct (is_space c) eqn:Hc.
    + destruct cur as [|x cur]; [now apply IH|].
      constructor; [|now apply IH].
      split; [|now apply no_space_rev].
      intros E. apply (f_equal (@List.length char)) in E.
      rewrite length_rev in E. discriminate.
    + apply IH. simpl. now rewrite Hc.
Qed.

Lemma split_from_spaces (p s : str) :
  forallb is_space p = true -> split_from [] (p ++ s) = split_from [] s.
Proof.
  induction p as [|c p IH]; simpl; [reflexivity|].
  intros H. apply andb_true_iff in H. destruct H as [-> H]. now apply IH.
Qed.

Lemma split_from_word (a s : str) :
  no_space a = true ->
  forall cur, split_from cur (a ++ s) = split_from (rev a ++ cur) s.
Proof.
  induction a as [|c a IH]; simpl; intros H cur; [reflexivity|].
  apply andb_true_iff in H. destruct H as [Hc H].
  apply negb_true_iff in Hc. rewrite Hc, (IH H).
  now rewrite <- app_assoc.
Qed.

Lemma split_from_end (b p : str) :
  b <> [] -> forallb is_space p = true -> split_from (rev b) p = [b].
Proof.
  intros Hb Hp.
  assert (Hr : rev b <> []).
  { intros E. apply (f_equal (@List.length char)) in E.
    rewrite length_rev in E. destruct b; [contradiction | discriminate]. }
  destruct p as [|c p]; simpl.
  - destruct (rev b) eqn:E; [contradiction|]. now rewrite <- E, rev_involutive.
  - simpl in Hp. apply andb_true_iff in Hp. destruct Hp as [-> Hp].
    destruct (rev b) eqn:E; [contradiction|]. rewrite <- E, rev_involutive.
    rewrite <- (app_nil_r p), (split_from_spaces p [] Hp). reflexivity.
Qed.

(** Two words, with any whitespace around and at least one separator
    between them, split into the two words. *)
Lemma split_two_words (p1 a p2 b p3 : str) :
  forallb is_space p1 = true -> forallb is_space p2 = true ->
  forallb is_space p3 = true -> p2 <> [] ->
  a <> [] -> no_space a = true -> b <> [] -> no_space b = true ->
  split (p1 ++ a ++ p2 ++ b ++ p3) = [a; b].
Proof.
  intros H1 H2 H3 Hp2 Ha Hna Hb Hnb. unfold split.
  rewrite (split_from_spaces p1 _ H1), (split_from_word a _ Hna), app_nil_r.
  destruct p2 as [|c p2]; [contradiction|].
  simpl in H2. apply andb_true_iff in H2. destruct H2 as [Hc H2].
  simpl. rewrite Hc.
  destruct (rev a) eqn:E.
  { apply (f_equal (@List.length char)) in E. rewrite length_rev in E.
    destruct a; [contradiction | discriminate]. }
  rewrite <- E, rev_involutive.
  rewrite (split_from_spaces p2 _ H2), (split_from_word b _ Hnb), app_nil_r.
  now rewrite (split_from_end b p3 Hb H3).
Qed.

Lemma is_space_lower_char (c : char) : is_space c = true -> lower_char c = c.
Proof.
  intros H. unfold lower_char.
  destruct ((65 <=? c)%N && (c <=? 90)%N) eqn:E; [|reflexivity].
  apply andb_true_iff in E. destruct E as [E1 E2].
  apply N.leb_le in E1, E2. unfold is_space in H.
  repeat (apply orb_true_iff in H; destruct H as [H|H]);
    repeat (apply andb_true_iff in H; destruct H as [H H']);
    repeat match goal with
           | X : (_ <=? _)%N = true |- _ => apply N.leb_le in X
           | X : (_ =? _)%N = true |- _ => apply N.eqb_eq in X
           end; lia.
Qed.

Lemma no_space_lower (s : str) : no_space (lower s) = true -> no_space s = true.
Proof.
  unfold no_space, lower. induction s as [|c s IH]; simpl; [reflexivity|].
  intros H. apply andb_true_iff in H. destruct H as [Hc H].
  rewrite (IH H), andb_true_r.
  destruct (is_space c) eqn:E; [|reflexivity].
  now rewrite (is_space_lower_char c E), E in Hc.
Qed.

Lemma spaced_key_enforced (cfg : Config) :
  existsb is_space (API_KEY cfg) = true -> ~ check_disabled cfg.
Proof.
  intros Hsp [Hd|Hd].
  - rewrite Hd in Hsp. discriminate.
  - assert (Hn : no_space (API_KEY cfg) = true)
      by (apply no_space_lower; rewrite Hd; reflexivity).
    unfold no_space in Hn. rewrite forallb_forall in Hn.
    apply existsb_exists in Hsp. destruct Hsp as (c & Hin & Hc).
    specialize (Hn c Hin). rewrite Hc in Hn. discriminate.
Qed.

(** X5.  A configured key that contains a whitespace character locks the
    models listing: the check is on and no Authorization header whatever
    passes it, since the header is split on whitespace. *)
Theorem spaced_key_never_matches (cfg : Config) (auth_header : option str) :
  existsb is_space (API_KEY cfg) = true ->
  validate_api_key cfg auth_header = false /\
  list_models cfg auth_header = unauthorized.
Proof.
  intros Hsp.
  assert (Hv : validate_api_key cfg auth_header = false).
  { destruct (validate_api_key cfg auth_header) eqn:Hv; [|reflexivity].
    apply (@validate_enforced cfg auth_header (spaced_key_enforced cfg Hsp)) in Hv.
    destruct Hv as (header & scheme & _ & Hs & _).
    pose proof (split_from_parts header [] eq_refl) as Hparts.
    fold (split header) in Hparts. rewrite Hs in Hparts.
    inversion Hparts as [|? ? _ Hrest]; subst.
    inversion Hrest as [|? ? [_ Hn] _]; subst.
    unfold no_space in Hn. rewrite forallb_forall in Hn.
    apply existsb_exists in Hsp. destruct Hsp as (c & Hin & Hc).
    specialize (Hn c Hin). rewrite Hc in Hn. discriminate. }
  split; [exact Hv|]. unfold list_models. now rewrite Hv.
Qed.

Lemma spaced_key_never_matches_witness :
  list_models (load_config [(lit "API_KEY", lit "my key")])
              (Some (lit "Bearer my key")) = unauthorized.
Proof.
  apply spaced_key_never_matches. vm_compute. reflexivity.
Defined.

(** X6.  With the check on and a key free of whitespace, a header made of
    the word "bearer" in any letter case, whitespace, and the key passes,
    whatever whitespace surrounds the two words. *)
Theorem bearer_header_accepted (cfg : Config) (p1 scheme p2 p3 : str) :
  ~ check_disabled cfg ->
  no_space (API_KEY cfg) = true ->
  lower scheme = lit "bearer" ->
  forallb is_space p1 = true -> forallb is_space p2 = true ->
  forallb is_space p3 = true -> p2 <> [] ->
  validate_api_key cfg (Some (p1 ++ scheme ++ p2 ++ API_KEY cfg ++ p3)) = true.
Proof.
  intros Hon Hkey Hscheme H1 H2 H3 Hp2.
  apply (@validate_enforced cfg _ Hon).
  exists (p1 ++ scheme ++ p2 ++ API_KEY cfg ++ p3), scheme.
  split; [reflexivity|]. split; [|exact Hscheme].
  apply split_two_words; try assumption.
  - intros ->. discriminate.
  - apply no_space_lower. rewrite Hscheme. reflexivity.
  - intros E. apply Hon. now left.
Qed.

Lemma bearer_header_accepted_witness :
  validate_api_key sample_config (Some (lit " BeArEr" ++ [9%N; 32%N] ++ lit "s3cret" ++ nl))
  = true.
Proof.
  apply (bearer_header_accepted sample_config (lit " ") (lit "BeArEr") [9%N; 32%N] nl);
    try reflexivity; try discriminate.
  intros [H|H]; vm_compute in H; discriminate.
Defined.

(** ** The transcript *)

Lemma context_step_line (context : str) (flag : bool) (msg : Message) :
  context_step (context, flag) msg
  = (context ++ transcript_line msg, flag || labelled msg).
Proof.
  unfold context_step, transcript_line, labelled, role_label.
  destruct (is_text (get (role msg)) (lit "system")).
  { now rewrite orb_true_r. }
  destruct (is_text (get (role msg)) (lit "user")).
  { now rewrite orb_true_r. }
  destruct (is_text (get (role msg)) (lit "assistant")).
  { now rewrite orb_true_r. }
  now rewrite app_nil_r, orb_false_r.
Qed.

Lemma fold_context_step (l : list Message) :
  forall context flag,
    fold_left context_step l (context, flag)
    = (context ++ List.concat (List.map transcript_line l),
       flag || existsb labelled l).
Proof.
  induction l as [|msg l IH]; intros context flag; cbn [fold_left].
  - simpl. now rewrite app_nil_r, orb_false_r.
  - rewrite context_step_line, IH. simpl. now rewrite <- app_assoc, orb_assoc.
Qed.

Lemma removelast_snoc (before : list Message) (l : Message) :
  removelast (before ++ [l]) = before.
Proof. apply removelast_last. Qed.

Lemma build_context_snoc (before : list Message) (l : Message) :
  build_context (before ++ [l]) = (transcript before, existsb labelled before).
Proof.
  unfold build_context, transcript.
  rewrite removelast_snoc, fold_context_step. now rewrite <- app_assoc.
Qed.

(** X7.  The context built for a message list is the header line followed
    by one line per message before the last, in order: label, content and
    newline for the roles system, user and assistant, nothing for any
    other role.  The last message never enters it, and the flag that
    decides whether the context is used holds exactly when some message
    before the last has one of the three roles. *)
Theorem context_is_transcript (messages : list Message) :
  build_context messages
  = (transcript (removelast messages), existsb labelled (removelast messages)).
Proof.
  unfold build_context, transcript.
  rewrite fold_context_step. now rewrite <- app_assoc.
Qed.

Lemma is_user_labelled (m : Message) : is_user m = true -> labelled m = true.
Proof.
  unfold is_user, labelled, role_label. intros H.
  destruct (is_text (get (role m)) (lit "system")); [reflexivity|].
  now rewrite H.
Qed.

(** X8.  When some message before the last has role user with non-empty
    text and the last message is not a user message, the last message is
    dropped: the input text is the transcript of the messages before it,
    two newlines, and the content of the last user message as current
    message, whatever the last message says. *)
Theorem trailing_message_dropped (b1 b2 : list Message) (m l : Message) (s : str) :
  is_user m = true -> content m = Text s -> s <> [] ->
  Forall (fun x => is_user x = false) b2 ->
  is_user l = false ->
  collapse ((b1 ++ m :: b2) ++ [l])
  = Ok {| inputText :=
            PStr (transcript (b1 ++ m :: b2) ++ nl ++ nl
                  ++ lit "Current message: " ++ s);
          usedFallback := false |}.
Proof.
  intros Hm Hc Hs Hb2 Hl. unfold collapse.
  assert (Ha : select_anchor ((b1 ++ m :: b2) ++ [l]) = Ok (PStr s, false)).
  { rewrite <- app_assoc. simpl app.
    apply select_anchor_last_user; try assumption.
    apply Forall_app. split; [exact Hb2 | repeat constructor; exact Hl]. }
  rewrite Ha. unfold full_input_of. rewrite build_context_snoc.
  rewrite existsb_app. simpl existsb.
  rewrite (is_user_labelled m Hm), orb_true_r. reflexivity.
Qed.

Lemma trailing_message_dropped_witness :
  collapse [message_of "user" "Hi"; message_of "assistant" "Hello";
            message_of "system" "Be terse"]
  = collapse [message_of "user" "Hi"; message_of "assistant" "Hello";
              message_of "tool" "42"].
Proof.
  assert (Hs : lit "Hi" <> []) by discriminate.
  assert (Hb : Forall (fun x => is_user x = false) [message_of "assistant" "Hello"])
    by (repeat constructor).
  exact (eq_trans
           (trailing_message_dropped [] [message_of "assistant" "Hello"]
              (message_of "user" "Hi") (message_of "system" "Be terse") (lit "Hi")
              eq_refl eq_refl Hs Hb eq_refl)
           (eq_sym
              (trailing_message_dropped [] [message_of "assistant" "Hello"]
                 (message_of "user" "Hi") (message_of "tool" "42") (lit "Hi")
                 eq_refl eq_refl Hs Hb eq_refl))).
Defined.

(** X9.  A conversation of one message with text content is passed on as
    that text alone, with no header and no label, whatever the role; the
    fallback is marked unless the message is a user message with
    non-empty text. *)
Theorem single_message_verbatim (r : field) (s : str) :
  collapse [ {| role := r; content := Text s |} ]
  = Ok {| inputText := PStr s;
          usedFallback := negb (is_text (get r) (lit "user") && str_truthy s) |}.
Proof.
  unfold collapse, select_anchor, full_input_of. simpl.
  destruct (is_text (get r) (lit "user")); simpl.
  - destruct s; reflexivity.
  - reflexivity.
Qed.

(** ** Decoding chunk by chunk *)

Lemma option_map_cons_app (c : char) (s : str) (o : option str) :
  option_map (cons c) (option_map (app s) o) = option_map (app (c :: s)) o.
Proof. destruct o; reflexivity. Qed.

Ltac decode_head H :=
  match type of H with
  | option_map (cons ?c) (utf8_decode ?r) = Some ?s =>
      let s' := fresh "s" in
      let E := fresh "E" in
      destruct (utf8_decode r) as [s'|] eqn:E; [|discriminate H];
      simpl in H; injection H as <-
  end.

Lemma utf8_decode_app_bounded (n : nat) :
  forall a s,
    List.length a <= n ->
    utf8_decode a = Some s ->
    forall b, utf8_decode (a ++ b) = option_map (app s) (utf8_decode b).
Proof.
  induction n as [|n IH]; intros a s Hlen H b.
  { destruct a; [|simpl in Hlen; lia]. simpl in H. injection H as <-.
    simpl. now destruct (utf8_decode b). }
  destruct a as [|b0 r0].
  { simpl in H. injection H as <-. simpl. now destruct (utf8_decode b). }
  cbn [utf8_decode app] in *. cbv zeta in *.
  destruct (Byte.to_N b0 <? 128)%N.
  { decode_head H. rewrite (IH r0 s0) by (simpl in Hlen; lia || assumption).
    apply option_map_cons_app. }
  destruct r0 as [|b1 r1]; [discriminate|]. cbn [app] in *.
  destruct (between 194 (Byte.to_N b0) 223).
  { destruct (cont (Byte.to_N b1)); [|discriminate].
    decode_head H. rewrite (IH r1 s0) by (simpl in Hlen; lia || assumption).
    apply option_map_cons_app. }
  destruct r1 as [|b2 r2]; [discriminate|]. cbn [app] in *.
  destruct (between 224 (Byte.to_N b0) 239).
  { match type of H with (if ?c then _ else _) = _ => destruct c end;
      [|discriminate].
    decode_head H. rewrite (IH r2 s0) by (simpl in Hlen; lia || assumption).
    apply option_map_cons_app. }
  destruct r2 as [|b3 r3]; [discriminate|]. cbn [app] in *.
  match type of H with (if ?c then _ else _) = _ => destruct c end;
    [|discriminate].
  decode_head H. rewrite (IH r3 s0) by (simpl in Hlen; lia || assumption).
  apply option_map_cons_app.
Qed.

Lemma utf8_decode_app (a b : bytes) (s : str) :
  utf8_decode a = Some s ->
  utf8_decode (a ++ b) = option_map (app s) (utf8_decode b).
Proof.
  intros H. now apply (utf8_decode_app_bounded (List.length a) a s (le_n _)).
Qed.

Lemma utf8_decode_chunks (events : list Event) :
  forallb decodable events = true ->
  utf8_decode (chunk_bytes_of events) = Some (List.concat (fragments events)).
Proof.
  induction events as [|[b|] events IH]; simpl; intros H.
  - reflexivity.
  - apply andb_true_iff in H. destruct H as [Hb H].
    destruct (utf8_decode b) as [s|] eqn:E; [|discriminate].
    rewrite (utf8_decode_app b _ s E), (IH H). reflexivity.
  - now apply IH.
Qed.

(** X10.  When every chunk decodes on its own, the aggregate content is
    the decoding of all chunk bytes laid end to end.  The converse fails:
    the relay decodes chunk by chunk, so a character whose bytes the
    backend splits over two chunks makes it raise although the bytes as a
    whole are well-formed. *)
Theorem aggregate_decodes_concatenation (events : list Event) :
  (forallb decodable events = true ->
   exists s,
     utf8_decode (chunk_bytes_of events) = Some s /\ aggregate events = Ok s) /\
  (exists split_events,
      utf8_decode (chunk_bytes_of split_events) = Some [8364%N] /\
      aggregate split_events = Raise UnicodeDecodeError).
Proof.
  split.
  - intros H. exists (List.concat (fragments events)). split.
    + now apply utf8_decode_chunks.
    + unfold aggregate. now rewrite aggregate_from_decodable.
  - exists [ChunkEvent [xe2; x82]; ChunkEvent [xac]]. split; reflexivity.
Qed.

Lemma aggregate_decodes_concatenation_witness :
  utf8_decode (chunk_bytes_of sample_events) = Some (lit "Hello") /\
  aggregate sample_events = Ok (lit "Hello").
Proof.
  destruct (aggregate_decodes_concatenation sample_events) as [H _].
  destruct (H eq_refl) as (s & Hd & Ha).
  assert (E : s = lit "Hello").
  { vm_compute in Hd. injection Hd as <-. reflexivity. }
  subst s. split; assumption.
Defined.

(** ** The stream on any input *)

Lemma stream_loop_shape (response_id : str) (created_time : Z) (model_id : str)
    (events : list Event) :
  let '(items, e) := stream_loop response_id created_time model_id events in
  ~ In DoneMarker items /\
  existsb empty_content_item items = false /\
  (e = None \/ e = Some UnicodeDecodeError).
Proof.
  induction events as [|[b|] events IH]; simpl.
  - repeat split; auto.
  - destruct (utf8_decode b) as [s|]; [|repeat split; auto].
    destruct (stream_loop response_id created_time model_id events) as [items e].
    destruct IH as (Hdone & Hempty & He).
    destruct s as [|c s]; simpl; [repeat split; assumption|].
    repeat split; [|exact Hempty | exact He].
    intros [H|H]; [discriminate | contradiction].
  - exact IH.
Qed.

(** X11.  Whatever the backend sends, decodable or not, the run of the
    generator starts with the role frame, never yields a content frame with
    an empty content, ends either normally or with [UnicodeDecodeError],
    and yields the [DONE] marker exactly when it ends normally, in which
    case the finish frame and the marker are its last two items. *)
Theorem stream_shape_always (response_id : str) (created_time : Z)
    (model_id : str) (events : list Event) :
  let run := generate_stream response_id created_time model_id events in
  (exists items,
      yielded run = Data (role_frame response_id created_time model_id) :: items) /\
  existsb empty_content_item (yielded run) = false /\
  (ending run = None \/ ending run = Some UnicodeDecodeError) /\
  (In DoneMarker (yielded run) <-> ending run = None) /\
  (ending run = None ->
   exists items,
     yielded run
     = items ++ [Data (finish_frame response_id created_time model_id); DoneMarker]).
Proof.
  unfold generate_stream.
  pose proof (stream_loop_shape response_id created_time model_id events) as H.
  destruct (stream_loop response_id created_time model_id events) as [items e].
  destruct H as (Hdone & Hempty & He).
  destruct e as [err|]; simpl.
  - split; [eauto|]. split; [exact Hempty|].
    split; [destruct He as [He|He]; [discriminate | now right]|].
    split; [|discriminate].
    split; [|discriminate]. intros [H|H]; [discriminate | contradiction].
  - split; [eauto|]. split.
    { rewrite existsb_app, Hempty. reflexivity. }
    split; [now left|]. split.
    + split; [reflexivity|]. intros _. right. apply in_or_app. right.
      right. now left.
    + intros _.
      exists (Data (role_frame response_id created_time model_id) :: items).
      reflexivity.
Qed.

(** ** Outcomes of the chat endpoint *)

(** The handler step by step: which failure ends it where, and what the
    world has seen by then. *)
Lemma chat_completions_outcome (cfg : Config) (sys : System) (request : Request)
    (w : World) :
  chat_completions cfg sys request w =
  match resolve cfg (requested_model cfg request) with
  | Raise e => (Raise e, w)
  | Ok agent =>
      match collapse (requested_messages request) with
      | Raise e => (Raise e, w)
      | Ok c =>
          let agent_request :=
            agent_request_of cfg sys request (urandom_calls w) agent c in
          match invoke_agent sys agent_request with
          | Raise e => (Raise e, world_after_invoke w agent_request)
          | Ok events =>
              let response_id := response_id_of cfg sys request w in
              let created_time := int_time sys (time_calls w) in
              let model_id := requested_model cfg request in
              if body_stream request then
                (Ok (StreamResponse (lit "text/event-stream") stream_headers
                       (generate_stream response_id created_time model_id events)),
                 world_after_answer w agent_request)
              else
                match aggregate events with
                | Raise e => (Raise e, world_after_answer w agent_request)
                | Ok completion =>
                    (Ok (JsonResponse
                           (completion_of response_id created_time model_id completion)),
                     world_after_answer w agent_request)
                end
          end
      end
  end.
Proof.
  unfold chat_completions, requested_model, requested_messages, bind, lift.
  destruct (resolve cfg _) as [agent|e]; [|reflexivity].
  destruct (collapse _) as [c|e]; [|reflexivity].
  unfold os_urandom4_hex at 1. cbn beta iota zeta.
  unfold call_invoke_agent. cbn beta iota zeta.
  unfold agent_request_of, requested_model.
  destruct (invoke_agent sys _) as [events|e]; [|reflexivity].
  unfold os_urandom4_hex, time_now. cbn beta iota zeta.
  destruct (body_stream request); [reflexivity|].
  unfold lift, ret. destruct (aggregate events); reflexivity.
Qed.


(** X13.  When the backend client raises, the exception leaves the view
    as it is; the invocation has been made and the session draw taken, the
    response id and the timestamp have not. *)
Theorem backend_error_propagates (cfg : Config) (sys : System) (request : Request)
    (w : World) (agent : AgentConfig) (c : Collapsed) (e : exn) :
  resolve cfg (requested_model cfg request) = Ok agent ->
  collapse (requested_messages request) = Ok c ->
  invoke_agent sys (agent_request_of cfg sys request (urandom_calls w) agent c)
  = Raise e ->
  chat_completions cfg sys request w
  = (Raise e,
     world_after_invoke w
       (agent_request_of cfg sys request (urandom_calls w) agent c)).
Proof.
  intros Hr Hc Hb. rewrite chat_completions_outcome, Hr, Hc. cbv zeta.
  now rewrite Hb.
Qed.

(** X14.  In aggregate mode, with an agent resolved, the messages
    collapsed and a backend answer whose chunks decode, the view returns
    one completion object: its content is the concatenation of the decoded
    fragments, its role "assistant", its finish reason "stop", the three
    token counts -1, and its model the identifier the caller asked for. *)
Theorem aggregate_answer (cfg : Config) (sys : System) (request : Request)
    (w : World) (agent : AgentConfig) (c : Collapsed) (events : list Event) :
  resolve cfg (requested_model cfg request) = Ok agent ->
  collapse (requested_messages request) = Ok c ->
  invoke_agent sys (agent_request_of cfg sys request (urandom_calls w) agent c)
  = Ok events ->
  forallb decodable events = true ->
  body_stream request = false ->
  chat_completions cfg sys request w
  = (Ok (JsonResponse
           (completion_of (response_id_of cfg sys request w)
              (int_time sys (time_calls w)) (requested_model cfg request)
              (List.concat (fragments events)))),
     world_after_answer w
       (agent_request_of cfg sys request (urandom_calls w) agent c)).
Proof.
  intros Hr Hc Hb Hd Hs. rewrite chat_completions_outcome, Hr, Hc. cbv zeta.
  rewrite Hb, Hs. unfold aggregate.
  now rewrite (aggregate_from_decodable events [] Hd).
Qed.

(** X15.  A chunk that is not UTF-8 fails the two modes differently.  In
    aggregate mode the view raises [UnicodeDecodeError].  In streaming
    mode the view returns its response all the same; the failure comes
    while the body is produced, after the role frame and the frames of the
    fragments before, and the body has neither finish frame nor [DONE]
    marker. *)
Theorem decode_error_by_mode (cfg : Config) (sys : System) (request : Request)
    (w : World) (agent : AgentConfig) (c : Collapsed)
    (good bad : list Event) (b : bytes) :
  resolve cfg (requested_model cfg request) = Ok agent ->
  collapse (requested_messages request) = Ok c ->
  invoke_agent sys (agent_request_of cfg sys request (urandom_calls w) agent c)
  = Ok (good ++ ChunkEvent b :: bad) ->
  forallb decodable good = true ->
  utf8_decode b = None ->
  fst (chat_completions cfg sys (with_stream request false) w)
  = Raise UnicodeDecodeError /\
  fst (chat_completions cfg sys (with_stream request true) w)
  = Ok (StreamResponse (lit "text/event-stream") stream_headers
          {| yielded :=
               Data (role_frame (response_id_of cfg sys request w)
                       (int_time sys (time_calls w)) (requested_model cfg request))
               :: List.map (content_item (response_id_of cfg sys request w)
                              (int_time sys (time_calls w))
                              (requested_model cfg request))
                           (filter str_truthy (fragments good));
             ending := Some UnicodeDecodeError |}).
Proof.
  intros Hr Hc Hb Hgood Hbad.
  destruct (@relay_decode_error (response_id_of cfg sys request w)
              (int_time sys (time_calls w)) (requested_model cfg request)
              good bad b Hgood Hbad) as [Hagg Hstream].
  split; rewrite chat_completions_outcome;
    change (requested_model cfg (with_stream request _))
      with (requested_model cfg request);
    change (requested_messages (with_stream request _))
      with (requested_messages request);
    rewrite Hr, Hc; cbv zeta;
    change (agent_request_of cfg sys (with_stream request _) (urandom_calls w) agent c)
      with (agent_request_of cfg sys request (urandom_calls w) agent c);
    rewrite Hb; simpl body_stream; cbv iota.
  - now rewrite Hagg.
  - change (response_id_of cfg sys (with_stream request true) w)
      with (response_id_of cfg sys request w).
    now rewrite Hstream.
Qed.

Lemma backend_error_propagates_witness :
  chat_completions sample_config failing_system scenario_request initial_world
  = (Raise (ClientError (lit "ThrottlingException")),
     world_after_invoke initial_world
       (agent_request_of sample_config failing_system scenario_request 0
          scenario_agent scenario_collapsed)).
Proof.
  apply (backend_error_propagates sample_config failing_system scenario_request
           initial_world scenario_agent scenario_collapsed);
    vm_compute; reflexivity.
Defined.

Lemma aggregate_answer_witness :
  chat_completions sample_config sample_system
    (with_stream scenario_request false) initial_world
  = (Ok (JsonResponse
           (completion_of (lit "chatcmpl-MY-BOT-00c0ffe1") 1700000000
              (lit "MY-BOT") (lit "Hello"))),
     world_after_answer initial_world
       (agent_request_of sample_config sample_system scenario_request 0
          scenario_agent scenario_collapsed)).
Proof.
  exact (aggregate_answer sample_config sample_system
           (with_stream scenario_request false) initial_world
           scenario_agent scenario_collapsed sample_events
           eq_refl eq_refl eq_refl eq_refl eq_refl).
Defined.

Lemma decode_error_by_mode_witness :
  fst (chat_completions sample_config garbled_system
         (with_stream scenario_request false) initial_world)
  = Raise UnicodeDecodeError /\
  exists body,
    fst (chat_completions sample_config garbled_system
           (with_stream scenario_request true) initial_world)
    = Ok (StreamResponse (lit "text/event-stream") stream_headers body) /\
    ending body = Some UnicodeDecodeError /\
    List.length (yielded body) = 2.
Proof.
  destruct (decode_error_by_mode sample_config garbled_system scenario_request
              initial_world scenario_agent scenario_collapsed
              [ChunkEvent (ascii_bytes "Hel")] [ChunkEvent (ascii_bytes "lo")] [xff]
              eq_refl eq_refl eq_refl eq_refl eq_refl) as [Hagg Hstream].
  split; [exact Hagg|].
  eexists. split; [exact Hstream|]. split; reflexivity.
Defined.

(** X16.  A request for a model the registry does not know is served by
    the default agent without a word to the caller: the one backend
    invocation carries the default's agent id and alias id, while every
    [model] field of the answer, aggregate or streamed, repeats the
    identifier the caller sent. *)
Theorem unknown_model_served_by_default (cfg : Config) (sys : System)
    (request : Request) (w w' : World) (m : str) (d : AgentConfig)
    (r : ChatResponse) :
  body_model request = Some m ->
  dict_get (AGENTS cfg) m = None ->
  dict_get (AGENTS cfg) (DEFAULT_AGENT cfg) = Some d ->
  chat_completions cfg sys request w = (Ok r, w') ->
  (exists agent_request,
      invocations w' = invocations w ++ [agent_request] /\
      agentId agent_request = agent_id d /\
      agentAliasId agent_request = alias_id d) /\
  Forall (eq m) (response_models r).
Proof.
  intros Hm Hmiss Hdef H.
  assert (Hmodel : requested_model cfg request = m)
    by (unfold requested_model; now rewrite Hm).
  assert (Hr : resolve cfg (requested_model cfg request) = Ok d)
    by (rewrite Hmodel; unfold resolve; now rewrite Hmiss, Hdef).
  rewrite chat_completions_outcome, Hr in H.
  destruct (collapse (requested_messages request)) as [c|e]; [|discriminate].
  cbv zeta in H.
  destruct (invoke_agent sys _) as [events|e]; [|discriminate].
  destruct (body_stream request).
  - injection H as <- <-. split.
    + eexists. split; [reflexivity|]. split; reflexivity.
    + simpl. apply Forall_forall. intros x Hx.
      apply in_flat_map in Hx. destruct Hx as ([chunk|] & Hin & Hx); [|contradiction].
      destruct Hx as [<-|[]].
      destruct (@generate_stream_frames _ _ _ events chunk Hin) as (_ & _ & Hcm).
      now rewrite Hcm.
  - destruct (aggregate events) as [completion|e]; [|discriminate].
    injection H as <- <-. split.
    + eexists. split; [reflexivity|]. split; reflexivity.
    + simpl. constructor; [now rewrite Hmodel | constructor].
Qed.

Lemma unknown_model_served_by_default_witness :
  exists r w',
    chat_completions sample_config sample_system unknown_model_request initial_world
    = (Ok r, w') /\
    Forall (eq (lit "unknown-model")) (response_models r) /\
    List.map agentId (invocations w') = [lit "AG1"].
Proof.
  eexists. eexists. split; [vm_compute; reflexivity|].
  edestruct (unknown_model_served_by_default sample_config sample_system
               unknown_model_request initial_world)
    as [_ Hmodels].
  - reflexivity.
  - vm_compute. reflexivity.
  - vm_compute. reflexivity.
  - vm_compute. reflexivity.
  - split; [exact Hmodels | reflexivity].
Defined.

(** ** What the start-up log says of the key *)

(** X17.  When the start-up log reports that no API key is required, the
    check is indeed off.  The log compares the key with "none" as written,
    the check ignores letter case: for a key such as "None" or "NONE" the
    log reports a required key while every request passes. *)
Theorem startup_log_key_flag (cfg : Config) :
  (api_key_required_logged cfg = false -> check_disabled cfg) /\
  (lower (API_KEY cfg) = lit "none" -> API_KEY cfg <> lit "none" ->
   api_key_required_logged cfg = true /\
   forall h, validate_api_key cfg h = true).
Proof.
  unfold api_key_required_logged. split.
  - intros H. apply andb_false_iff in H.
    destruct H as [H|H]; apply negb_false_iff, str_eqb_eq in H.
    + right. rewrite H. reflexivity.
    + now left.
  - intros Hl Hne. split.
    + apply andb_true_iff. split; apply negb_true_iff, str_eqb_neq; [exact Hne|].
      intros E. rewrite E in Hl. discriminate.
    + intros h. apply validate_disabled. now right.
Qed.

Lemma startup_log_key_flag_witness :
  api_key_required_logged (load_config [(lit "API_KEY", lit "None")]) = true /\
  list_models (load_config [(lit "API_KEY", lit "None")]) None
  = {| models_body := ModelsList (lit "list") []; models_status := 200 |}.
Proof.
  destruct (startup_log_key_flag (load_config [(lit "API_KEY", lit "None")]))
    as [_ H].
  destruct H as [Hlog Hpass]; [reflexivity | discriminate |].
  split; [exact Hlog|].
  unfold list_models. rewrite (Hpass None). reflexivity.
Defined.

(** ** From two variables to a registered agent *)

Lemma in_class_not_hyphen (c : char) : in_class c = true -> char_eqb c hyphen = false.
Proof.
  unfold in_class, between, char_eqb, hyphen, underscore. intros H.
  apply N.eqb_neq. intros ->. vm_compute in H. discriminate.
Qed.

Lemma replace_underscores_inj (a b : str) :
  forallb in_class a = true -> forallb in_class b = true ->
  replace_underscores a = replace_underscores b -> a = b.
Proof.
  revert b. induction a as [|x a IH]; intros [|y b] Ha Hb E;
    try reflexivity; try discriminate.
  simpl in Ha, Hb, E.
  apply andb_true_iff in Ha. destruct Ha as [Hx Ha].
  apply andb_true_iff in Hb. destruct Hb as [Hy Hb].
  injection E as Exy E. rewrite (IH b Ha Hb E). f_equal.
  pose proof (in_class_not_hyphen x Hx) as Nx.
  pose proof (in_class_not_hyphen y Hy) as Ny.
  unfold char_eqb in *.
  destruct (N.eqb_spec x underscore) as [->|Hxu];
    destruct (N.eqb_spec y underscore) as [->|Hyu]; try reflexivity.
  - subst y. rewrite N.eqb_refl in Ny. discriminate.
  - subst x. rewrite N.eqb_refl in Nx. discriminate.
  - exact Exy.
Qed.

(** X18.  Setting the two variables registers the agent: if the
    environment has AGENT_<X>_ID and a non-empty AGENT_<X>_ALIAS_ID, for a
    non-empty X of capitals, digits and underscores, then X with hyphens
    for underscores is a registered model; its alias id is the value of
    the alias variable, and its agent id the value of a variable whose name
    starts with AGENT_<X>_ID. *)
Theorem variable_pair_registers (env : environ) (g value alias : str) :
  g <> [] -> forallb in_class g = true ->
  In (lit "AGENT_" ++ g ++ lit "_ID", value) env ->
  dict_get env (alias_key_of g) = Some alias ->
  alias <> [] ->
  exists c,
    resolve (load_config env) (replace_underscores g) = Ok c /\
    alias_id c = alias /\
    exists rest, In (lit "AGENT_" ++ g ++ lit "_ID" ++ rest, agent_id c) env.
Proof.
  intros Hne Hall Hin Halias Hnonempty.
  destruct (@fold_load_agent_registers env env [] _ value g alias Hin
              (agent_pattern_match_exact g Hne Hall) Halias Hnonempty)
    as [c Hc].
  fold (build_agents env) in Hc.
  exists c. split; [now apply resolve_registered|].
  destruct (@build_agents_sound env _ c Hc) as (key & g' & Hkey & Hm & Hname & Ha & _).
  unfold agent_pattern_match in Hm.
  destruct (strip_prefix (lit "AGENT_") key) as [s|] eqn:Hp; [|discriminate].
  apply strip_prefix_spec in Hp.
  destruct (group_from_sound s false g' Hm) as (Hall' & [rest Hs] & _).
  assert (Eg : g = g') by now apply replace_underscores_inj.
  subst g'. split.
  - rewrite Halias in Ha. now injection Ha.
  - exists rest. now rewrite <- Hs, <- Hp.
Qed.

Lemma variable_pair_registers_witness :
  exists c,
    resolve sample_config (lit "MY-BOT") = Ok c /\ alias_id c = lit "AL1".
Proof.
  destruct (variable_pair_registers sample_environ (lit "MY_BOT") (lit "AG1") (lit "AL1"))
    as (c & Hres & Ha & _).
  - discriminate.
  - reflexivity.
  - left. reflexivity.
  - reflexivity.
  - discriminate.
  - exists c. split; assumption.
Defined.
